(** * svgwrite/interface.py: the attribute-setting interfaces

    A shallow embedding of the four mixin classes of [svgwrite/interface.py]
    ([IViewBox], [ITransform], [IXLink], [IPresentation]) and the properties
    of the attribute strings they produce.

    A method of the source is a computation over the host element: it reads
    and writes the element's attribute dictionary and either returns or
    raises.  Writes done before a [raise] stay in the dictionary, as they do
    in Python. *)

From Stdlib Require Import ZArith String Ascii List Bool Lia.
From stdpp Require Import base option list strings pretty functions gmap.

Open Scope string_scope.

Set Warnings "-register-all".

(** ** Python values *)

(** The values the interface methods receive and store: [None], integers
    and strings. *)
Inductive value :=
  | VNone
  | VInt (n : Z)
  | VStr (s : string).

#[global] Instance value_eq_dec : EqDecision value.
Proof. solve_decision. Defined.

(** An argument of [strlist]: a value, or a nested sequence of arguments
    (the [center] pair of [rotate]). *)
Inductive arg :=
  | Leaf (v : value)
  | Seq (items : list arg).

(** [str(v)], which is also what ["%s" % v] prints. *)
Definition py_str (v : value) : string :=
  match v with
  | VNone => "None"
  | VInt n => pretty n
  | VStr s => s
  end.

(** Truth value of [v] in an [if v:] test. *)
Definition truthy (v : value) : bool :=
  match v with
  | VNone => false
  | VInt n => negb (n =? 0)%Z
  | VStr s => negb (String.eqb s "")
  end.

Definition is_none (v : value) : bool :=
  match v with VNone => true | _ => false end.

(** ** String helpers of the Python runtime *)

(** The characters [str.strip()] removes. *)
Definition is_whitespace (c : ascii) : bool :=
  let n := nat_of_ascii c in
  (n =? 32)%nat || ((9 <=? n)%nat && (n <=? 13)%nat).

Fixpoint lstrip (s : string) : string :=
  match s with
  | EmptyString => EmptyString
  | String c s' => if is_whitespace c then lstrip s' else s
  end.

Fixpoint rstrip (s : string) : string :=
  match s with
  | EmptyString => EmptyString
  | String c s' =>
      match rstrip s' with
      | EmptyString => if is_whitespace c then EmptyString else String c EmptyString
      | r => String c r
      end
  end.

Definition strip (s : string) : string := rstrip (lstrip s).

(** [sep.join(parts)]. *)
Fixpoint join (sep : string) (parts : list string) : string :=
  match parts with
  | [] => ""
  | [p] => p
  | p :: rest => p +:+ sep +:+ join sep rest
  end.

(** ** [utils.strlist] *)

(** Flattening of nested sequences, in order. *)
Fixpoint iter_flatlist_arg (a : arg) : list value :=
  match a with
  | Leaf v => [v]
  | Seq items =>
      (fix go (l : list arg) : list value :=
         match l with
         | [] => []
         | x :: l' => (iter_flatlist_arg x ++ go l')%list
         end) items
  end.

Definition iter_flatlist (values : list arg) : list value :=
  flat_map iter_flatlist_arg values.

(** Modelled from the spec: [utils.strlist] is imported by interface.py but
    its module is not among the sources.  Section 3 of the specification
    describes it: a sequence of numbers, with optional nested coordinate
    pairs, is serialised as joined tokens and [None] entries are omitted.
    The separator is left as an argument here. *)
Definition strlist_with (sep : string) (values : list arg) : string :=
  join sep (py_str <$> filter (λ v, is_none v = false) (iter_flatlist values)).

(** Modelled from the spec: the separator [strlist] uses when it is called
    with the list alone, as every call of interface.py does.  Sections 4.1
    and 8 of the specification fix it through the [viewBox] value, a
    whitespace-joined list ("0 0 100 50").  Section 4.2 writes a token of
    two entries with a comma; the properties of the transform tokens below
    are stated on [token] as it is computed here and, where one entry is
    printed, hold for every separator. *)
Definition strlist_separator : string := " ".

Definition strlist (values : list arg) : string :=
  strlist_with strlist_separator values.

(** ** The host element and its computations *)

Abbreviation loc := nat.

(** What [set_href] accepts: an id name or another element. *)
Inductive reference :=
  | RefName (name : string)
  | RefElem (target : loc).

(** The fields of the host element the interfaces use. *)
Record element := Element {
  attribs : gmap string value;
  debug : bool;
  href : option reference
}.

Inductive exception :=
  | ValueError (msg : string)
  | KeyError (key : string)
  | NameError (name : string)
  | AttributeError (name : string).

Inductive outcome (A : Type) :=
  | Return (a : A)
  | Raise (e : exception).
Arguments Return {A} a.
Arguments Raise {A} e.

(** A computation over a state [S]: from the state before to the outcome
    and the state after.  A method body is a computation over the host
    element. *)
Definition M (S A : Type) : Type := S → outcome A * S.

Definition ret {S A} (a : A) : M S A := λ st, (Return a, st).

Definition bind {S A B} (m : M S A) (k : A → M S B) : M S B :=
  λ st,
    match m st with
    | (Return a, st') => k a st'
    | (Raise e, st') => (Raise e, st')
    end.

Definition raise {S A} (e : exception) : M S A := λ st, (Raise e, st).

#[global] Instance M_ret {S} : MRet (M S) := @ret S.
#[global] Instance M_bind {S} : MBind (M S) := λ A B k m, bind m k.

Abbreviation method := (M element).

(** [if c: body] *)
Definition when (c : bool) (body : method unit) : method unit :=
  if c then body else ret tt.

(** [self.debug] *)
Definition get_debug : method bool := λ self, (Return (debug self), self).

(** [self.attribs.get(key, dflt)] *)
Definition attribs_get (key : string) (dflt : value) : method value :=
  λ self, (Return (default dflt (attribs self !! key)), self).

(** [self.attribs[key] = v] *)
Definition attribs_set (key : string) (v : value) : method unit :=
  λ self,
    (Return tt,
     {| attribs := <[key := v]> (attribs self);
        debug := debug self;
        href := href self |}).

(** [self.attribs.pop(key, None)]; the popped value is returned, [None]
    when the key is absent. *)
Definition attribs_pop (key : string) : method value :=
  λ self,
    (Return (default VNone (attribs self !! key)),
     {| attribs := delete key (attribs self);
        debug := debug self;
        href := href self |}).

(** Modelled from the spec: [self[key] = v] goes through the host element's
    [__setitem__], which is not in interface.py.  Section 6 of the
    specification gives the host a mutable attribute mapping with set by
    string key, so the item assignment is the assignment into [attribs]. *)
Definition setitem (key : string) (v : value) : method unit :=
  attribs_set key v.

(** [d[key]] on a module-level dictionary of strings. *)
Definition dict_getitem (d : gmap string string) (key : string) : method string :=
  match d !! key with
  | Some v => ret v
  | None => raise (KeyError key)
  end.

(** Reading a name that is bound in no scope of the module. *)
Definition load_unbound (name : string) : method value :=
  raise (NameError name).

(** ** Module constants *)

Definition _horiz : gmap string string :=
  <["center" := "xMid"]> (<["left" := "xMin"]> (<["right" := "xMax"]> ∅)).

Definition _vert : gmap string string :=
  <["middle" := "YMid"]> (<["top" := "YMin"]> (<["bottom" := "YMax"]> ∅)).

(** ** IViewBox *)

Module IViewBox.

(** [def viewbox(self, minx=0, miny=0, width=0, height=0)] *)
Definition viewbox (minx miny width height : value) : method unit :=
  setitem "viewBox"
    (VStr (strlist [Leaf minx; Leaf miny; Leaf width; Leaf height])).

Definition viewbox_default : method unit :=
  viewbox (VInt 0) (VInt 0) (VInt 0) (VInt 0).

(** [def stretch(self)] *)
Definition stretch : method unit :=
  setitem "preserveAspectRatio" (VStr "none").

(** [scale not in ('meet', 'slice')] *)
Definition not_in_meet_slice (scale : string) : bool :=
  negb (String.eqb scale "meet" || String.eqb scale "slice").

(** [def fit(self, horiz="center", vert="middle", scale="meet")] *)
Definition fit (horiz vert scale : string) : method unit :=
  d ← get_debug;
  (if d && not_in_meet_slice scale
   then raise (ValueError ("Invalid scale parameter '" +:+ scale +:+ "'"))
   else ret tt);;
  h ← dict_getitem _horiz horiz;
  v ← dict_getitem _vert vert;
  setitem "preserveAspectRatio" (VStr (h +:+ v +:+ " " +:+ scale)).

Definition fit_default : method unit := fit "center" "middle" "meet".

End IViewBox.

(** ** ITransform *)

Module ITransform.

(** [def _add_transformation(self, new_transform)] *)
Definition _add_transformation (new_transform : string) : method unit :=
  old_transform ← attribs_get "transform" (VStr "");
  setitem "transform"
    (VStr (strip (py_str old_transform +:+ " " +:+ new_transform))).

(** [def translate(self, tx, ty=None)] *)
Definition translate (tx ty : value) : method unit :=
  _add_transformation ("translate(" +:+ strlist [Leaf tx; Leaf ty] +:+ ")").

(** [def rotate(self, angle, center=None)] *)
Definition rotate (angle : value) (center : arg) : method unit :=
  _add_transformation ("rotate(" +:+ strlist [Leaf angle; center] +:+ ")").

(** [def scale(self, sx, sy=None)] *)
Definition scale (sx sy : value) : method unit :=
  _add_transformation ("scale(" +:+ strlist [Leaf sx; Leaf sy] +:+ ")").

(** [def skewX(self, angle)] *)
Definition skewX (angle : value) : method unit :=
  _add_transformation ("skewX(" +:+ py_str angle +:+ ")").

(** [def skewY(self, angle)] *)
Definition skewY (angle : value) : method unit :=
  _add_transformation ("skewY(" +:+ py_str angle +:+ ")").

(** [def matrix(self, a, b, c, d, e, f)] *)
Definition matrix (a b c d e f : value) : method unit :=
  _add_transformation
    ("matrix(" +:+ strlist [Leaf a; Leaf b; Leaf c; Leaf d; Leaf e; Leaf f]
     +:+ ")").

(** [def del_transform(self)] *)
Definition del_transform : method unit :=
  attribs_pop "transform";; ret tt.

End ITransform.

(** ** IPresentation *)

Module IPresentation.

(** [def fill(self, color=None, rule=None, opacity=None)] *)
Definition fill (color rule opacity : value) : method unit :=
  when (truthy color) (setitem "fill" color);;
  when (truthy rule) (setitem "fill-rule" rule);;
  when (truthy opacity) (setitem "fill-opacity" opacity).

(** [def stroke(self, color=None, width=None, opacity=None, linecap=None,
    linejoin=None, miterlimit=None)].  The fifth test reads [join], which
    is no parameter of [stroke], no global of the module and no builtin. *)
Definition stroke (color width opacity linecap linejoin miterlimit : value)
  : method unit :=
  when (truthy color) (setitem "stroke" color);;
  when (truthy width) (setitem "stroke-width" width);;
  when (truthy opacity) (setitem "stroke-opacity" opacity);;
  when (truthy linecap) (setitem "stroke-linecap" linecap);;
  join ← load_unbound "join";
  when (truthy join) (setitem "stroke-linejoin" linejoin);;
  when (truthy miterlimit) (setitem "stroke-miterlimit" miterlimit).

(** [def dasharray(self, definition=None, offset=None)] *)
Definition dasharray (definition offset : value) : method unit :=
  when (truthy definition) (setitem "stroke-array" definition);;
  when (truthy offset) (setitem "stroke-dashoffset" offset).

(** [def viewport_fill(self, color=None, opacity=None)] *)
Definition viewport_fill (color opacity : value) : method unit :=
  when (truthy color) (setitem "viewport-fill" color);;
  when (truthy opacity) (setitem "viewport-fill-opacity" opacity).

End IPresentation.

(** ** IXLink *)

(** [set_href] may write into another element, and that element may be the
    host itself: the elements live in a store and are named by location. *)
Record world := World {
  heap : loc → element;
  autoid : nat
}.

(** Run a method body on the element at [l]. *)
Definition at_elem {A} (l : loc) (m : method A) : M world A :=
  λ w,
    let (r, e') := m (heap w l) in
    (r, {| heap := <[l := e']> (heap w); autoid := autoid w |}).

(** [self.href = r] *)
Definition set_href_field (r : reference) : method unit :=
  λ self,
    (Return tt,
     {| attribs := attribs self; debug := debug self; href := Some r |}).

(** [self.href] *)
Definition get_href_field : method reference :=
  λ self,
    match href self with
    | Some r => (Return r, self)
    | None => (Raise (AttributeError "href"), self)
    end.

(** [self.attribs.setdefault(key, dflt)] *)
Definition attribs_setdefault (key : string) (dflt : value) : method value :=
  λ self,
    match attribs self !! key with
    | Some v => (Return v, self)
    | None =>
        (Return dflt,
         {| attribs := <[key := dflt]> (attribs self);
            debug := debug self;
            href := href self |})
    end.

Module IXLink.
Section Allocator.

(** The host's identifier allocator [nextid()] is not in interface.py;
    the name it gives to its [n]-th identifier is a parameter. *)
Variable idname : nat → string.

(** [self.nextid()] *)
Definition nextid : M world string :=
  λ w, (Return (idname (autoid w)),
        {| heap := heap w; autoid := S (autoid w) |}).

(** [def update_id(self)] *)
Definition update_id (self : loc) : M world unit :=
  r ← at_elem self get_href_field;
  idstr ← match r with
          | RefName name => ret (VStr name)
          | RefElem target =>
              fresh ← nextid;
              at_elem target (attribs_setdefault "id" (VStr fresh))
          end;
  at_elem self (attribs_set "xlink:href" (VStr ("#" +:+ py_str idstr))).

(** [def set_href(self, element)] *)
Definition set_href (self : loc) (element : reference) : M world unit :=
  at_elem self (set_href_field element);;
  update_id self.

End Allocator.
End IXLink.

(** The element a method starts from in the examples: no attributes. *)
Definition blank (dbg : bool) : element :=
  {| attribs := ∅; debug := dbg; href := None |}.

(** The element [self] with its attribute dictionary replaced. *)
Definition with_attribs (self : element) (a : gmap string value) : element :=
  {| attribs := a; debug := debug self; href := href self |}.

(** [if v: self[key] = v] on the dictionary. *)
Definition set_if_truthy (key : string) (v : value) (a : gmap string value)
  : gmap string value :=
  if truthy v then <[key := v]> a else a.

(** ** Sequences of transform calls *)

(** One call of a transform method with its arguments. *)
Inductive transform_call :=
  | Translate (tx ty : value)
  | Rotate (angle : value) (center : arg)
  | Scale (sx sy : value)
  | SkewX (angle : value)
  | SkewY (angle : value)
  | Matrix (a b c d e f : value).

Definition call (c : transform_call) : method unit :=
  match c with
  | Translate tx ty => ITransform.translate tx ty
  | Rotate angle center => ITransform.rotate angle center
  | Scale sx sy => ITransform.scale sx sy
  | SkewX angle => ITransform.skewX angle
  | SkewY angle => ITransform.skewY angle
  | Matrix a b c d e f => ITransform.matrix a b c d e f
  end.

(** The calls of a list one after the other, on the same element. *)
Fixpoint call_all (cs : list transform_call) : method unit :=
  match cs with
  | [] => mret tt
  | c :: rest => call c;; call_all rest
  end.

(** The string a call hands to [_add_transformation]. *)
Definition token (c : transform_call) : string :=
  match c with
  | Translate tx ty => "translate(" +:+ strlist [Leaf tx; Leaf ty] +:+ ")"
  | Rotate angle center => "rotate(" +:+ strlist [Leaf angle; center] +:+ ")"
  | Scale sx sy => "scale(" +:+ strlist [Leaf sx; Leaf sy] +:+ ")"
  | SkewX angle => "skewX(" +:+ py_str angle +:+ ")"
  | SkewY angle => "skewY(" +:+ py_str angle +:+ ")"
  | Matrix a b c d e f =>
      "matrix(" +:+ strlist [Leaf a; Leaf b; Leaf c; Leaf d; Leaf e; Leaf f]
      +:+ ")"
  end.

(** A string [strip] leaves alone: not empty, no whitespace at either
    end. *)
Definition trimmed (s : string) : Prop :=
  s ≠ "" ∧ lstrip s = s ∧ rstrip s = s.

#[global] Instance trimmed_dec (s : string) : Decision (trimmed s).
Proof. unfold trimmed. apply _. Defined.

(** The identifiers of the examples: id0, id1, ... *)
Definition id_n (n : nat) : string := "id" +:+ pretty n.

(** A store for the examples: every location holds an element without
    attributes. *)
Definition blank_world : world :=
  {| heap := λ _, blank false; autoid := 0 |}.

(** A store for the examples: element 0 refers to element 1, whose
    ['id'] is "logo". *)
Definition linked_world : world :=
  {| heap :=
       <[0 := {| attribs := ∅; debug := false; href := Some (RefElem 1) |}]>
         (<[1 := with_attribs (blank false) (<["id" := VStr "logo"]> ∅)]>
            (heap blank_world));
     autoid := 0 |}.

(** Membership in a list written out in the statement. *)
Ltac in_list :=
  repeat (rewrite elem_of_cons in * || rewrite elem_of_nil in * );
  intuition (subst; (congruence || eauto)).

(** Lookups in a store after writes at known locations. *)
Ltac heap_simpl :=
  repeat first
    [ rewrite fn_lookup_insert
    | rewrite fn_lookup_insert_ne by congruence
    | progress cbn -[insert] ].

(** * Properties *)

(** ** Running a method body *)

Lemma with_attribs_same (self : element) : with_attribs self (attribs self) = self.
Proof. by destruct self. Qed.

Lemma attribs_with_attribs (self : element) (a : gmap string value) :
  attribs (with_attribs self a) = a.
Proof. reflexivity. Qed.

Lemma with_attribs_twice (self : element) (a b : gmap string value) :
  with_attribs (with_attribs self a) b = with_attribs self b.
Proof. reflexivity. Qed.

Lemma run_bind {S A B} (m : M S A) (k : A → M S B) (st : S) :
  (m ≫= k) st =
  match m st with
  | (Return a, st') => k a st'
  | (Raise e, st') => (Raise e, st')
  end.
Proof. reflexivity. Qed.

Lemma run_setitem (key : string) (v : value) (self : element) :
  setitem key v self = (Return tt, with_attribs self (<[key := v]> (attribs self))).
Proof. reflexivity. Qed.

Lemma run_dict_getitem_Some (d : gmap string string) (key v : string) (self : element) :
  d !! key = Some v → dict_getitem d key self = (Return v, self).
Proof. unfold dict_getitem. by intros ->. Qed.

Lemma run_dict_getitem_None (d : gmap string string) (key : string) (self : element) :
  d !! key = None → dict_getitem d key self = (Raise (KeyError key), self).
Proof. unfold dict_getitem. by intros ->. Qed.

(** ** The alignment tables *)

Lemma horiz_table (key : string) :
  _horiz !! key =
    if decide (key = "center") then Some "xMid"
    else if decide (key = "left") then Some "xMin"
    else if decide (key = "right") then Some "xMax"
    else None.
Proof.
  unfold _horiz. repeat case_decide; subst; simplify_map_eq; done.
Qed.

Lemma vert_table (key : string) :
  _vert !! key =
    if decide (key = "middle") then Some "YMid"
    else if decide (key = "top") then Some "YMin"
    else if decide (key = "bottom") then Some "YMax"
    else None.
Proof.
  unfold _vert. repeat case_decide; subst; simplify_map_eq; done.
Qed.

Lemma not_in_meet_slice_true (scale : string) :
  IViewBox.not_in_meet_slice scale = true ↔ scale ≠ "meet" ∧ scale ≠ "slice".
Proof.
  unfold IViewBox.not_in_meet_slice.
  rewrite negb_true_iff, orb_false_iff, !String.eqb_neq. done.
Qed.

Lemma not_in_meet_slice_false (scale : string) :
  IViewBox.not_in_meet_slice scale = false ↔ scale = "meet" ∨ scale = "slice".
Proof.
  unfold IViewBox.not_in_meet_slice.
  rewrite negb_false_iff, orb_true_iff, !String.eqb_eq. done.
Qed.

(** The scale test of [fit] passes: the flag is off or the scale is one of
    the two modes. *)
Lemma fit_scale_accepted (horiz vert scale : string) (self : element) :
  debug self && IViewBox.not_in_meet_slice scale = false →
  IViewBox.fit horiz vert scale self =
    (h ← dict_getitem _horiz horiz;
     v ← dict_getitem _vert vert;
     setitem "preserveAspectRatio" (VStr (h +:+ v +:+ " " +:+ scale))) self.
Proof.
  intros Hc. unfold IViewBox.fit.
  rewrite run_bind. unfold get_debug. rewrite run_bind, Hc. reflexivity.
Qed.

(** The scale test of [fit] fails: nothing has been written yet. *)
Lemma fit_scale_rejected (horiz vert scale : string) (self : element) :
  debug self = true → scale ≠ "meet" → scale ≠ "slice" →
  IViewBox.fit horiz vert scale self =
    (Raise (ValueError ("Invalid scale parameter '" +:+ scale +:+ "'")), self).
Proof.
  intros Hd Hm Hs. unfold IViewBox.fit.
  rewrite run_bind. unfold get_debug. rewrite run_bind, Hd.
  assert (IViewBox.not_in_meet_slice scale = true) as ->
    by (by apply not_in_meet_slice_true).
  reflexivity.
Qed.

(** ** IViewBox.viewbox *)

Lemma strlist_four_ints (a b c d : Z) :
  strlist [Leaf (VInt a); Leaf (VInt b); Leaf (VInt c); Leaf (VInt d)]
  = pretty a +:+ " " +:+ pretty b +:+ " " +:+ pretty c +:+ " " +:+ pretty d.
Proof. reflexivity. Qed.

(** C6: [viewbox(minx, miny, width, height)] stores the four numbers, joined
    by single spaces, under ['viewBox'] and returns; no other attribute
    changes and no number is rejected, whatever its sign.  In particular
    [viewbox(0,0,100,50)] gives "0 0 100 50", and negative width and height
    are written as they are. *)
Theorem viewbox_stores_joined_numbers (minx miny width height : Z) (self : element) :
  IViewBox.viewbox (VInt minx) (VInt miny) (VInt width) (VInt height) self
  = (Return tt,
     with_attribs self
       (<["viewBox" :=
            VStr (pretty minx +:+ " " +:+ pretty miny +:+ " "
                  +:+ pretty width +:+ " " +:+ pretty height)]>
          (attribs self)))
  ∧ attribs
      (IViewBox.viewbox (VInt 0) (VInt 0) (VInt 100) (VInt 50) self).2
      !! "viewBox" = Some (VStr "0 0 100 50")
  ∧ attribs
      (IViewBox.viewbox (VInt 0) (VInt 0) (VInt (-100)) (VInt (-50)) self).2
      !! "viewBox" = Some (VStr "0 0 -100 -50").
Proof.
  unfold IViewBox.viewbox. rewrite !run_setitem, !strlist_four_ints.
  split; [reflexivity|].
  split; simpl; by rewrite lookup_insert_eq.
Qed.

(** ** IViewBox.fit *)

(** C7: for a recognised [horiz] key and a recognised [vert] key, and a
    scale that passes the scale test (the flag is off, or the scale is
    'meet' or 'slice'), [fit] returns and sets ['preserveAspectRatio'] to
    the two alignment tokens, a space and the scale; nothing else changes.
    The tables map left, center, right to xMin, xMid, xMax and top, middle,
    bottom to YMin, YMid, YMax.  [fit()] gives "xMidYMid meet" and
    [fit("left", "top", "slice")] gives "xMinYMin slice" under either
    setting of the flag. *)
Theorem fit_sets_alignment_and_scale
    (horiz vert scale : string) (self : element)
    (Hh : horiz ∈ ["left"; "center"; "right"])
    (Hv : vert ∈ ["top"; "middle"; "bottom"])
    (Hs : debug self = true → scale ∈ ["meet"; "slice"]) :
  (∃ h v,
      _horiz !! horiz = Some h ∧ _vert !! vert = Some v ∧
      IViewBox.fit horiz vert scale self
      = (Return tt,
         with_attribs self
           (<["preserveAspectRatio" := VStr (h +:+ v +:+ " " +:+ scale)]>
              (attribs self))))
  ∧ (_horiz !! "left" = Some "xMin" ∧ _horiz !! "center" = Some "xMid"
     ∧ _horiz !! "right" = Some "xMax")
  ∧ (_vert !! "top" = Some "YMin" ∧ _vert !! "middle" = Some "YMid"
     ∧ _vert !! "bottom" = Some "YMax")
  ∧ IViewBox.fit_default self
    = (Return tt,
       with_attribs self
         (<["preserveAspectRatio" := VStr "xMidYMid meet"]> (attribs self)))
  ∧ IViewBox.fit "left" "top" "slice" self
    = (Return tt,
       with_attribs self
         (<["preserveAspectRatio" := VStr "xMinYMin slice"]> (attribs self))).
Proof.
  assert (Hacc : ∀ s, (debug self = true → s ∈ ["meet"; "slice"]) →
                      debug self && IViewBox.not_in_meet_slice s = false).
  { intros s H. destruct (debug self); [|done]. simpl.
    apply not_in_meet_slice_false. specialize (H eq_refl). in_list. }
  assert (Hrun : ∀ k1 k2 s h v,
             debug self && IViewBox.not_in_meet_slice s = false →
             _horiz !! k1 = Some h → _vert !! k2 = Some v →
             IViewBox.fit k1 k2 s self
             = (Return tt,
                with_attribs self
                  (<["preserveAspectRatio" := VStr (h +:+ v +:+ " " +:+ s)]>
                     (attribs self)))).
  { intros k1 k2 s h v Hc H1 H2. rewrite fit_scale_accepted by done.
    rewrite run_bind, (run_dict_getitem_Some _ _ _ _ H1).
    rewrite run_bind, (run_dict_getitem_Some _ _ _ _ H2).
    apply run_setitem. }
  split.
  { assert (is_Some (_horiz !! horiz)) as [h Hh'].
    { rewrite horiz_table. repeat case_decide; eauto. in_list. }
    assert (is_Some (_vert !! vert)) as [v Hv'].
    { rewrite vert_table. repeat case_decide; eauto. in_list. }
    exists h, v. split_and!; [done..|]. apply Hrun; auto. }
  split; [by rewrite !horiz_table|].
  split; [by rewrite !vert_table|].
  split.
  - unfold IViewBox.fit_default.
    apply (Hrun "center" "middle" "meet" "xMid" "YMid");
      [apply Hacc; in_list | by rewrite horiz_table | by rewrite vert_table].
  - apply (Hrun "left" "top" "slice" "xMin" "YMin");
      [apply Hacc; in_list | by rewrite horiz_table | by rewrite vert_table].
Qed.

Lemma fit_sets_alignment_and_scale_witness :
  "right" ∈ ["left"; "center"; "right"]
  ∧ "bottom" ∈ ["top"; "middle"; "bottom"]
  ∧ IViewBox.fit "right" "bottom" "slice" (blank true)
    = (Return tt,
       with_attribs (blank true)
         (<["preserveAspectRatio" := VStr "xMaxYMax slice"]> ∅)).
Proof.
  split; [in_list|]. split; [in_list|].
  destruct (fit_sets_alignment_and_scale "right" "bottom" "slice" (blank true))
    as [(h & v & Hh & Hv & ->) _]; [in_list | in_list | intros _; in_list |].
  vm_compute in Hh, Hv. by simplify_eq.
Defined.

(** The strict flag and a scale outside the two modes: [fit] raises the
    scale error whatever the keys are. *)
Lemma fit_strict_bad_scale (horiz vert scale : string) (self : element) :
  debug self = true → scale ∉ ["meet"; "slice"] →
  IViewBox.fit horiz vert scale self
  = (Raise (ValueError ("Invalid scale parameter '" +:+ scale +:+ "'")), self).
Proof.
  intros Hd Hs. apply fit_scale_rejected; [done | |]; intros ->; apply Hs; in_list.
Qed.

(** Past the scale test, an unknown [horiz] key raises the key error, and
    so does an unknown [vert] key after a known [horiz] key. *)
Lemma fit_bad_key (horiz vert scale : string) (self : element) :
  debug self && IViewBox.not_in_meet_slice scale = false →
  (_horiz !! horiz = None →
   IViewBox.fit horiz vert scale self = (Raise (KeyError horiz), self))
  ∧ (is_Some (_horiz !! horiz) → _vert !! vert = None →
     IViewBox.fit horiz vert scale self = (Raise (KeyError vert), self)).
Proof.
  intros Hc. rewrite fit_scale_accepted by done. split.
  - intros Hh. by rewrite run_bind, (run_dict_getitem_None _ _ _ Hh).
  - intros [h Hh] Hv.
    rewrite run_bind, (run_dict_getitem_Some _ _ _ _ Hh).
    by rewrite run_bind, (run_dict_getitem_None _ _ _ Hv).
Qed.

(** C2, as stated, fails: with the strict flag on, an unrecognised [horiz]
    key together with a scale outside 'meet' and 'slice' raises the scale
    error, not a key error. *)
Lemma fit_bad_key_strict_bad_scale_is_not_KeyError :
  _horiz !! "diagonal" = None
  ∧ debug (blank true) = true
  ∧ IViewBox.fit "diagonal" "middle" "bogus" (blank true)
    = (Raise (ValueError "Invalid scale parameter 'bogus'"), blank true)
  ∧ ∀ key, (IViewBox.fit "diagonal" "middle" "bogus" (blank true)).1
           ≠ Raise (KeyError key).
Proof.
  split; [by rewrite horiz_table|]. split; [done|].
  assert (IViewBox.fit "diagonal" "middle" "bogus" (blank true)
          = (Raise (ValueError "Invalid scale parameter 'bogus'"), blank true))
    as ->; [|done].
  apply (fit_strict_bad_scale "diagonal" "middle" "bogus" (blank true)); [done|].
  in_list.
Qed.

(** C2, amended: with the strict flag on and a scale that is neither 'meet'
    nor 'slice', [fit] raises the invalid-argument error ([ValueError]),
    whose message quotes the scale, whatever the keys are.  With the flag
    off the scale is not looked at: for recognised keys [fit] returns and
    the scale is written verbatim after the alignment tokens, so
    [fit(scale="bogus")] gives "xMidYMid bogus".  An unrecognised [horiz] or
    [vert] key makes [fit] raise under either setting of the flag; the
    exception is the key error naming the key, except when the flag is on
    and the scale is invalid too, where the scale error comes first. *)
Theorem fit_validation_asymmetry (horiz vert scale : string) (self : element) :
  (debug self = true → scale ∉ ["meet"; "slice"] →
   IViewBox.fit horiz vert scale self
   = (Raise (ValueError ("Invalid scale parameter '" +:+ scale +:+ "'")), self))
  ∧ (debug self = false →
     ∀ h v, _horiz !! horiz = Some h → _vert !! vert = Some v →
     IViewBox.fit horiz vert scale self
     = (Return tt,
        with_attribs self
          (<["preserveAspectRatio" := VStr (h +:+ v +:+ " " +:+ scale)]>
             (attribs self))))
  ∧ (debug self = false →
     IViewBox.fit "center" "middle" "bogus" self
     = (Return tt,
        with_attribs self
          (<["preserveAspectRatio" := VStr "xMidYMid bogus"]> (attribs self))))
  ∧ (_horiz !! horiz = None ∨ _vert !! vert = None →
     ∃ e, IViewBox.fit horiz vert scale self = (Raise e, self)
          ∧ ((debug self = false ∨ scale ∈ ["meet"; "slice"]) →
             (_horiz !! horiz = None → e = KeyError horiz)
             ∧ (_horiz !! horiz ≠ None → e = KeyError vert))).
Proof.
  assert (Hoff : ∀ k1 k2 s h v,
             debug self = false →
             _horiz !! k1 = Some h → _vert !! k2 = Some v →
             IViewBox.fit k1 k2 s self
             = (Return tt,
                with_attribs self
                  (<["preserveAspectRatio" := VStr (h +:+ v +:+ " " +:+ s)]>
                     (attribs self)))).
  { intros k1 k2 s h v Hd H1 H2.
    rewrite fit_scale_accepted by (by rewrite Hd).
    rewrite run_bind, (run_dict_getitem_Some _ _ _ _ H1).
    rewrite run_bind, (run_dict_getitem_Some _ _ _ _ H2).
    apply run_setitem. }
  split; [apply fit_strict_bad_scale|].
  split; [intros Hd h v; by apply Hoff|].
  split.
  { intros Hd.
    apply (Hoff "center" "middle" "bogus" "xMid" "YMid");
      [done | by rewrite horiz_table | by rewrite vert_table]. }
  intros Hbad.
  destruct (debug self && IViewBox.not_in_meet_slice scale) eqn:Hc.
  - apply andb_true_iff in Hc as [Hd Hs].
    apply not_in_meet_slice_true in Hs as [Hm Hsl].
    eexists. split; [by apply fit_scale_rejected|].
    intros [Hoffd | Hin]; [congruence | in_list].
  - destruct (fit_bad_key horiz vert scale self Hc) as [Hkh Hkv].
    destruct (_horiz !! horiz) as [h|] eqn:Hh.
    + destruct Hbad as [? | Hv]; [done|].
      exists (KeyError vert). split; [apply Hkv; eauto|].
      intros _. split; [done | done].
    + exists (KeyError horiz). split; [by apply Hkh|].
      intros _. split; [done | done].
Qed.

Lemma fit_validation_asymmetry_witness :
  IViewBox.fit "center" "middle" "bogus" (blank true)
  = (Raise (ValueError "Invalid scale parameter 'bogus'"), blank true)
  ∧ IViewBox.fit "center" "middle" "bogus" (blank false)
    = (Return tt,
       with_attribs (blank false)
         (<["preserveAspectRatio" := VStr "xMidYMid bogus"]> ∅))
  ∧ IViewBox.fit "center" "upper" "meet" (blank true)
    = (Raise (KeyError "upper"), blank true).
Proof.
  split; [|split].
  - apply (fit_validation_asymmetry "center" "middle" "bogus" (blank true));
      [reflexivity | in_list].
  - apply (fit_validation_asymmetry "center" "middle" "bogus" (blank false)).
    reflexivity.
  - destruct (fit_validation_asymmetry "center" "upper" "meet" (blank true))
      as (_ & _ & _ & H).
    destruct H as (e & -> & He); [right; by rewrite vert_table|].
    destruct He as [_ He]; [right; in_list|].
    rewrite He; [reflexivity | by rewrite horiz_table].
Defined.

(** C10: when the strict flag is on and the scale is outside 'meet' and
    'slice', [fit] raises before it writes: the element after the call,
    its whole attribute dictionary and a ['preserveAspectRatio'] set before
    included, is the element before the call. *)
Theorem fit_error_leaves_element_unchanged
    (horiz vert scale : string) (self : element)
    (Hd : debug self = true)
    (Hs : scale ∉ ["meet"; "slice"]) :
  (∃ msg, (IViewBox.fit horiz vert scale self).1 = Raise (ValueError msg))
  ∧ (IViewBox.fit horiz vert scale self).2 = self
  ∧ attribs (IViewBox.fit horiz vert scale self).2 = attribs self
  ∧ attribs (IViewBox.fit horiz vert scale self).2 !! "preserveAspectRatio"
    = attribs self !! "preserveAspectRatio".
Proof.
  rewrite (fit_strict_bad_scale horiz vert scale self Hd Hs). simpl.
  eauto.
Qed.

Lemma fit_error_leaves_element_unchanged_witness :
  (IViewBox.fit "left" "top" "fill"
     (with_attribs (blank true) (<["preserveAspectRatio" := VStr "none"]> ∅))).2
  = with_attribs (blank true) (<["preserveAspectRatio" := VStr "none"]> ∅).
Proof.
  apply (fit_error_leaves_element_unchanged "left" "top" "fill"
           (with_attribs (blank true) (<["preserveAspectRatio" := VStr "none"]> ∅))).
  - reflexivity.
  - in_list.
Defined.

(** ** ITransform.del_transform *)

Lemma run_del_transform (self : element) :
  ITransform.del_transform self
  = (Return tt, with_attribs self (delete "transform" (attribs self))).
Proof. reflexivity. Qed.

(** C9: [del_transform] returns and leaves the attribute dictionary without
    the ['transform'] key, all other keys as they were.  On a dictionary
    without the key it is not an error and changes nothing, and two calls
    in a row leave the element one call leaves. *)
Theorem del_transform_removes_key_idempotent (self : element) :
  ITransform.del_transform self
  = (Return tt, with_attribs self (delete "transform" (attribs self)))
  ∧ attribs (ITransform.del_transform self).2 !! "transform" = None
  ∧ (∀ key, key ≠ "transform" →
       attribs (ITransform.del_transform self).2 !! key = attribs self !! key)
  ∧ (attribs self !! "transform" = None →
       ITransform.del_transform self = (Return tt, self))
  ∧ (ITransform.del_transform;; ITransform.del_transform) self
    = ITransform.del_transform self.
Proof.
  rewrite run_bind, !run_del_transform. simpl.
  split; [done|].
  split; [apply lookup_delete_eq|].
  split; [intros key Hk; by apply lookup_delete_ne|].
  split.
  - intros Habs. rewrite delete_id by done. by rewrite with_attribs_same.
  - unfold with_attribs; simpl. by rewrite delete_delete_eq.
Qed.

Lemma del_transform_removes_key_idempotent_witness :
  attribs (blank false) !! "transform" = None
  ∧ ITransform.del_transform (blank false) = (Return tt, blank false).
Proof.
  split; [reflexivity|].
  by apply (del_transform_removes_key_idempotent (blank false)).
Defined.

(** ** IPresentation *)

Lemma run_when_setitem (key : string) (v : value) (self : element) :
  when (truthy v) (setitem key v) self
  = (Return tt, with_attribs self (set_if_truthy key v (attribs self))).
Proof.
  unfold when, set_if_truthy. destruct (truthy v); [done|].
  by rewrite with_attribs_same.
Qed.

Lemma run_when_setitem_with (key : string) (v : value) (self : element) a :
  when (truthy v) (setitem key v) (with_attribs self a)
  = (Return tt, with_attribs self (set_if_truthy key v a)).
Proof. by rewrite run_when_setitem. Qed.

Lemma lookup_set_if_truthy (key k : string) (v : value) (a : gmap string value) :
  set_if_truthy key v a !! k
  = if decide (k = key ∧ truthy v = true) then Some v else a !! k.
Proof.
  unfold set_if_truthy. destruct (truthy v) eqn:Ht.
  - case_decide as H.
    + destruct H as [-> _]. apply lookup_insert_eq.
    + apply lookup_insert_ne. intros ->. by apply H.
  - case_decide as H; [by destruct H|done].
Qed.

Lemma lookup_set_if_truthy_same (key k : string) (v : value) (a : gmap string value) :
  (k = key → truthy v = false) → set_if_truthy key v a !! k = a !! k.
Proof.
  intros H. rewrite lookup_set_if_truthy.
  case_decide as Hd; [|done]. destruct Hd as [-> Ht]. by rewrite H in Ht.
Qed.

Lemma lookup_set_if_truthy_hit (key : string) (v : value) (a : gmap string value) :
  truthy v = true → set_if_truthy key v a !! key = Some v.
Proof. intros Ht. rewrite lookup_set_if_truthy. by rewrite decide_True. Qed.

Lemma lookup_set_if_truthy_other (key k : string) (v : value) (a : gmap string value) :
  k ≠ key → set_if_truthy key v a !! k = a !! k.
Proof. intros Hne. by apply lookup_set_if_truthy_same. Qed.

Lemma run_fill (color rule opacity : value) (self : element) :
  IPresentation.fill color rule opacity self
  = (Return tt,
     with_attribs self
       (set_if_truthy "fill-opacity" opacity
          (set_if_truthy "fill-rule" rule
             (set_if_truthy "fill" color (attribs self))))).
Proof.
  unfold IPresentation.fill.
  rewrite run_bind, run_when_setitem.
  rewrite run_bind, run_when_setitem_with.
  by rewrite run_when_setitem_with.
Qed.

Lemma run_viewport_fill (color opacity : value) (self : element) :
  IPresentation.viewport_fill color opacity self
  = (Return tt,
     with_attribs self
       (set_if_truthy "viewport-fill-opacity" opacity
          (set_if_truthy "viewport-fill" color (attribs self)))).
Proof.
  unfold IPresentation.viewport_fill.
  rewrite run_bind, run_when_setitem.
  by rewrite run_when_setitem_with.
Qed.

Lemma run_dasharray (definition offset : value) (self : element) :
  IPresentation.dasharray definition offset self
  = (Return tt,
     with_attribs self
       (set_if_truthy "stroke-dashoffset" offset
          (set_if_truthy "stroke-array" definition (attribs self)))).
Proof.
  unfold IPresentation.dasharray.
  rewrite run_bind, run_when_setitem.
  by rewrite run_when_setitem_with.
Qed.

Lemma run_stroke (color width opacity linecap linejoin miterlimit : value)
    (self : element) :
  IPresentation.stroke color width opacity linecap linejoin miterlimit self
  = (Raise (NameError "join"),
     with_attribs self
       (set_if_truthy "stroke-linecap" linecap
          (set_if_truthy "stroke-opacity" opacity
             (set_if_truthy "stroke-width" width
                (set_if_truthy "stroke" color (attribs self)))))).
Proof.
  unfold IPresentation.stroke.
  rewrite run_bind, run_when_setitem.
  rewrite run_bind, run_when_setitem_with.
  rewrite run_bind, run_when_setitem_with.
  rewrite run_bind, run_when_setitem_with.
  reflexivity.
Qed.

(** [fill] changes a key only if it belongs to a truthy parameter. *)
Lemma fill_frame (color rule opacity : value) (self : element) (key : string) :
  (key = "fill" → truthy color = false) →
  (key = "fill-rule" → truthy rule = false) →
  (key = "fill-opacity" → truthy opacity = false) →
  attribs (IPresentation.fill color rule opacity self).2 !! key
  = attribs self !! key.
Proof.
  intros H1 H2 H3. rewrite run_fill. simpl.
  by rewrite !lookup_set_if_truthy_same.
Qed.

(** [fill] stores a truthy parameter under its attribute. *)
Lemma fill_sets (color rule opacity : value) (self : element) :
  (truthy color = true →
   attribs (IPresentation.fill color rule opacity self).2 !! "fill" = Some color)
  ∧ (truthy rule = true →
     attribs (IPresentation.fill color rule opacity self).2 !! "fill-rule"
     = Some rule)
  ∧ (truthy opacity = true →
     attribs (IPresentation.fill color rule opacity self).2 !! "fill-opacity"
     = Some opacity).
Proof.
  rewrite run_fill. simpl. split_and!; intros Ht.
  - rewrite !lookup_set_if_truthy_other by done.
    by apply lookup_set_if_truthy_hit.
  - rewrite lookup_set_if_truthy_other by done.
    by apply lookup_set_if_truthy_hit.
  - by apply lookup_set_if_truthy_hit.
Qed.

(** [fill(color="red")] writes ['fill'] and nothing else. *)
Lemma fill_color_only (self : element) :
  IPresentation.fill (VStr "red") VNone VNone self
  = (Return tt, with_attribs self (<["fill" := VStr "red"]> (attribs self))).
Proof. by rewrite run_fill. Qed.

Lemma viewport_fill_frame (color opacity : value) (self : element) (key : string) :
  (key = "viewport-fill" → truthy color = false) →
  (key = "viewport-fill-opacity" → truthy opacity = false) →
  attribs (IPresentation.viewport_fill color opacity self).2 !! key
  = attribs self !! key.
Proof.
  intros H1 H2. rewrite run_viewport_fill. simpl.
  by rewrite !lookup_set_if_truthy_same.
Qed.

(** [stroke] raises, and up to there it has changed a key only if it
    belongs to one of the first four parameters and that one is truthy. *)
Lemma stroke_frame (color width opacity linecap linejoin miterlimit : value)
    (self : element) (key : string) :
  (key = "stroke" → truthy color = false) →
  (key = "stroke-width" → truthy width = false) →
  (key = "stroke-opacity" → truthy opacity = false) →
  (key = "stroke-linecap" → truthy linecap = false) →
  attribs
    (IPresentation.stroke color width opacity linecap linejoin miterlimit self).2
    !! key
  = attribs self !! key.
Proof.
  intros H1 H2 H3 H4. rewrite run_stroke. simpl.
  by rewrite !lookup_set_if_truthy_same.
Qed.

(** [dasharray] changes a key only if it is ['stroke-array'] with a truthy
    definition or ['stroke-dashoffset'] with a truthy offset. *)
Lemma dasharray_frame (definition offset : value) (self : element) (key : string) :
  (key = "stroke-array" → truthy definition = false) →
  (key = "stroke-dashoffset" → truthy offset = false) →
  attribs (IPresentation.dasharray definition offset self).2 !! key
  = attribs self !! key.
Proof.
  intros H1 H2. rewrite run_dasharray. simpl.
  by rewrite !lookup_set_if_truthy_same.
Qed.

(** C3: the code at [stroke(linejoin=v)], and at every other call of
    [stroke].  The call does not complete: after the first four parameters
    it reads the unbound name [join] and raises [NameError].  Neither
    ['stroke-linejoin'] nor ['stroke-miterlimit'] is written, whatever the
    arguments are. *)
Theorem stroke_raises_NameError
    (color width opacity linecap linejoin miterlimit : value) (self : element) :
  (IPresentation.stroke color width opacity linecap linejoin miterlimit self).1
  = Raise (NameError "join")
  ∧ attribs
      (IPresentation.stroke color width opacity linecap linejoin miterlimit self).2
      !! "stroke-linejoin" = attribs self !! "stroke-linejoin"
  ∧ attribs
      (IPresentation.stroke color width opacity linecap linejoin miterlimit self).2
      !! "stroke-miterlimit" = attribs self !! "stroke-miterlimit"
  ∧ IPresentation.stroke VNone VNone VNone VNone (VStr "round") VNone (blank false)
    = (Raise (NameError "join"), blank false).
Proof.
  split; [by rewrite run_stroke|].
  split; [by apply stroke_frame|].
  split; [by apply stroke_frame|].
  by rewrite run_stroke.
Qed.

(** C4: the code at [dasharray(definition="5,5")].  The definition is
    stored under ['stroke-array']; ['stroke-dasharray'] keeps what it had
    before the call, so on an element without attributes it stays unset.
    The offset does go to ['stroke-dashoffset']. *)
Theorem dasharray_writes_stroke_array (offset : value) (self : element) :
  attribs (IPresentation.dasharray (VStr "5,5") offset self).2 !! "stroke-array"
  = Some (VStr "5,5")
  ∧ attribs (IPresentation.dasharray (VStr "5,5") offset self).2
      !! "stroke-dasharray" = attribs self !! "stroke-dasharray"
  ∧ attribs (IPresentation.dasharray (VStr "5,5") VNone (blank false)).2
      !! "stroke-dasharray" = None
  ∧ attribs (IPresentation.dasharray (VStr "5,5") (VInt 3) (blank false)).2
      !! "stroke-dashoffset" = Some (VInt 3).
Proof.
  split.
  { rewrite run_dasharray. simpl.
    rewrite lookup_set_if_truthy_other by done.
    by apply lookup_set_if_truthy_hit. }
  split; [by apply dasharray_frame|].
  split; [by rewrite dasharray_frame|].
  rewrite run_dasharray. simpl. by apply lookup_set_if_truthy_hit.
Qed.

(** C8: the code at [dasharray(definition="5,5")] on an element without
    attributes.  The key that changes is ['stroke-array'], which is neither
    of the two attributes of [dasharray], ['stroke-dasharray'] and
    ['stroke-dashoffset']; and ['stroke-dasharray'], the attribute of the
    truthy definition, is not set.  So it does not hold that [dasharray]
    changes only the keys ['stroke-dasharray'] and ['stroke-dashoffset'] of
    its truthy parameters. *)
Theorem dasharray_changes_foreign_key :
  attribs (blank false) !! "stroke-array" = None
  ∧ attribs (IPresentation.dasharray (VStr "5,5") VNone (blank false)).2
      !! "stroke-array" = Some (VStr "5,5")
  ∧ ("stroke-array" ∉ ["stroke-dasharray"; "stroke-dashoffset"])
  ∧ attribs (IPresentation.dasharray (VStr "5,5") VNone (blank false)).2
    = <["stroke-array" := VStr "5,5"]> ∅
  ∧ ¬ (∀ (definition offset : value) (self : element) (key : string),
          (key = "stroke-dasharray" → truthy definition = false) →
          (key = "stroke-dashoffset" → truthy offset = false) →
          attribs (IPresentation.dasharray definition offset self).2 !! key
          = attribs self !! key).
Proof.
  assert (Hset : attribs (IPresentation.dasharray (VStr "5,5") VNone (blank false)).2
                 = <["stroke-array" := VStr "5,5"]> ∅).
  { by rewrite run_dasharray. }
  split; [done|].
  split; [by rewrite Hset, lookup_insert_eq|].
  split; [in_list|].
  split; [done|].
  intros Hframe.
  specialize (Hframe (VStr "5,5") VNone (blank false) "stroke-array").
  rewrite Hset, lookup_insert_eq in Hframe.
  by discriminate Hframe.
Qed.

(** ** IXLink *)

Section XLinkProperties.

Variable idname : nat → string.

Lemma run_attribs_setdefault (key : string) (dflt : value) (e : element) :
  attribs_setdefault key dflt e
  = (Return (default dflt (attribs e !! key)),
     with_attribs e (<[key := default dflt (attribs e !! key)]> (attribs e))).
Proof.
  unfold attribs_setdefault. destruct (attribs e !! key) as [v|] eqn:Hk; simpl.
  - rewrite insert_id by done. by rewrite with_attribs_same.
  - done.
Qed.

(** The identifier [set_href] ends up using for an element target: the
    target's ['id'] when it has one, else the next one of the allocator. *)
Lemma run_set_href_elem (self target : loc) (w : world) :
  let idv := default (VStr (idname (autoid w))) (attribs (heap w target) !! "id") in
  let w' := (IXLink.set_href idname self (RefElem target) w).2 in
  (IXLink.set_href idname self (RefElem target) w).1 = Return tt
  ∧ autoid w' = S (autoid w)
  ∧ attribs (heap w' target) !! "id" = Some idv
  ∧ attribs (heap w' self) !! "xlink:href" = Some (VStr ("#" +:+ py_str idv))
  ∧ (∀ key, key ≠ "id" → key ≠ "xlink:href" →
       attribs (heap w' target) !! key = attribs (heap w target) !! key)
  ∧ (∀ key, key ≠ "id" → key ≠ "xlink:href" →
       attribs (heap w' self) !! key = attribs (heap w self) !! key)
  ∧ (∀ l, l ≠ self → l ≠ target → heap w' l = heap w l).
Proof.
  intros idv w'. subst w'.
  unfold IXLink.set_href, IXLink.update_id, IXLink.nextid, at_elem.
  unfold mbind, M_bind, bind, mret, M_ret, ret, set_href_field,
    get_href_field, attribs_set.
  cbn -[insert attribs_setdefault]. rewrite !fn_lookup_insert.
  cbn -[insert attribs_setdefault].
  rewrite run_attribs_setdefault. cbn -[insert].
  destruct (decide (self = target)) as [->|Hne]; heap_simpl; fold idv.
  - split; [done|]. split; [done|].
    split; [rewrite lookup_insert_ne by done; apply lookup_insert_eq|].
    split; [apply lookup_insert_eq|].
    split; [intros key H1 H2; by rewrite !lookup_insert_ne|].
    split; [intros key H1 H2; by rewrite !lookup_insert_ne|].
    intros l H1 _. by heap_simpl.
  - split; [done|]. split; [done|].
    split; [apply lookup_insert_eq|].
    split; [apply lookup_insert_eq|].
    split; [intros key H1 H2; by rewrite !lookup_insert_ne|].
    split; [intros key H1 H2; by rewrite !lookup_insert_ne|].
    intros l H1 H2. by heap_simpl.
Qed.

Lemma run_set_href_name (self : loc) (name : string) (w : world) :
  let w' := (IXLink.set_href idname self (RefName name) w).2 in
  (IXLink.set_href idname self (RefName name) w).1 = Return tt
  ∧ autoid w' = autoid w
  ∧ attribs (heap w' self)
    = <["xlink:href" := VStr ("#" +:+ name)]> (attribs (heap w self))
  ∧ (∀ l, l ≠ self → heap w' l = heap w l).
Proof.
  intros w'. subst w'.
  unfold IXLink.set_href, IXLink.update_id, at_elem.
  unfold mbind, M_bind, bind, mret, M_ret, ret, set_href_field,
    get_href_field, attribs_set.
  heap_simpl.
  split; [done|]. split; [done|]. split; [done|].
  intros l Hl. by heap_simpl.
Qed.

(** C5: [set_href] with a string sets ['xlink:href'] of the host to "#"
    followed by the string, so [set_href("foo")] gives "#foo".  With an
    element that has no ['id'], the identifier [nextid()] returns is
    stored as the target's ['id'] and ['xlink:href'] of the host is "#"
    followed by that identifier.  With an element that has an ['id'],
    the ['id'] stays as it is and ['xlink:href'] is "#" followed by it.
    The call returns in every case, and the stored value always starts
    with "#".  The host and the target may be the same element. *)
Theorem set_href_stores_hash_identifier (self : loc) (w : world) :
  (∀ name,
      (IXLink.set_href idname self (RefName name) w).1 = Return tt
      ∧ attribs (heap (IXLink.set_href idname self (RefName name) w).2 self)
          !! "xlink:href" = Some (VStr ("#" +:+ name)))
  ∧ attribs (heap (IXLink.set_href idname self (RefName "foo") w).2 self)
      !! "xlink:href" = Some (VStr "#foo")
  ∧ (∀ target,
        attribs (heap w target) !! "id" = None →
        let w' := (IXLink.set_href idname self (RefElem target) w).2 in
        (IXLink.set_href idname self (RefElem target) w).1 = Return tt
        ∧ attribs (heap w' target) !! "id" = Some (VStr (idname (autoid w)))
        ∧ attribs (heap w' self) !! "xlink:href"
          = Some (VStr ("#" +:+ idname (autoid w))))
  ∧ (∀ target ident,
        attribs (heap w target) !! "id" = Some ident →
        let w' := (IXLink.set_href idname self (RefElem target) w).2 in
        (IXLink.set_href idname self (RefElem target) w).1 = Return tt
        ∧ attribs (heap w' target) !! "id" = Some ident
        ∧ attribs (heap w' self) !! "xlink:href"
          = Some (VStr ("#" +:+ py_str ident)))
  ∧ (∀ element, ∃ ident,
        attribs (heap (IXLink.set_href idname self element w).2 self)
          !! "xlink:href" = Some (VStr ("#" +:+ ident))).
Proof.
  assert (Hname : ∀ name,
             (IXLink.set_href idname self (RefName name) w).1 = Return tt
             ∧ attribs (heap (IXLink.set_href idname self (RefName name) w).2 self)
                 !! "xlink:href" = Some (VStr ("#" +:+ name))).
  { intros name.
    destruct (run_set_href_name self name w) as (Hr & _ & Ha & _).
    split; [done|]. rewrite Ha. apply lookup_insert_eq. }
  split; [done|].
  split; [apply (Hname "foo")|].
  split.
  { intros target Hid.
    destruct (run_set_href_elem self target w) as (Hr & _ & Ht & Hs & _).
    rewrite Hid in Ht, Hs. simpl in Ht, Hs. done. }
  split.
  { intros target ident Hid.
    destruct (run_set_href_elem self target w) as (Hr & _ & Ht & Hs & _).
    rewrite Hid in Ht, Hs. simpl in Ht, Hs. done. }
  intros [name|target].
  - exists name. apply Hname.
  - destruct (run_set_href_elem self target w) as (_ & _ & _ & Hs & _).
    eauto.
Qed.

End XLinkProperties.

Lemma set_href_stores_hash_identifier_witness :
  attribs (heap blank_world 1) !! "id" = None
  ∧ attribs (heap (IXLink.set_href id_n 0 (RefElem 1) blank_world).2 1) !! "id"
    = Some (VStr "id0")
  ∧ attribs (heap (IXLink.set_href id_n 0 (RefElem 1) blank_world).2 0)
      !! "xlink:href" = Some (VStr "#id0").
Proof.
  split; [reflexivity|].
  destruct (set_href_stores_hash_identifier id_n 0 blank_world)
    as (_ & _ & H & _).
  destruct (H 1) as (_ & Ht & Hs); [reflexivity|].
  split; [exact Ht | exact Hs].
Defined.

(** ** Strings: append, join and strip *)

Lemma string_app_cons (x : ascii) (a b : string) :
  String x a +:+ b = String x (a +:+ b).
Proof. reflexivity. Qed.

Lemma string_app_empty (b : string) : "" +:+ b = b.
Proof. reflexivity. Qed.

Lemma string_app_assoc (a b c : string) : (a +:+ b) +:+ c = a +:+ b +:+ c.
Proof.
  induction a as [|x a IH]; [done|]. rewrite !string_app_cons. by f_equal.
Qed.

Lemma string_app_not_empty_r (a b : string) : b ≠ "" → a +:+ b ≠ "".
Proof. destruct a; [done | discriminate]. Qed.

Lemma rstrip_app_trimmed (a b : string) :
  b ≠ "" → rstrip b = b → rstrip (a +:+ b) = a +:+ b.
Proof.
  intros Hne Hb. induction a as [|x a IH]; [done|].
  rewrite string_app_cons. simpl.
  rewrite IH. destruct (a +:+ b) eqn:Hab; [|done].
  by apply string_app_not_empty_r in Hab.
Qed.

Lemma lstrip_app_trimmed (a b : string) :
  a ≠ "" → lstrip a = a → lstrip (a +:+ b) = a +:+ b.
Proof.
  intros Hne Ha. destruct a as [|x a]; [done|].
  rewrite string_app_cons. simpl in *.
  destruct (is_whitespace x) eqn:Hx; [|done].
  (* a leading whitespace character would have been dropped *)
  exfalso. assert (Hlen : ∀ s, (String.length (lstrip s) <= String.length s)%nat).
  { clear. induction s as [|y s IH]; simpl; [lia|].
    destruct (is_whitespace y); simpl; lia. }
  specialize (Hlen a). rewrite Ha in Hlen. simpl in Hlen. lia.
Qed.

Lemma trimmed_app (a b : string) :
  trimmed a → trimmed b → trimmed (a +:+ " " +:+ b).
Proof.
  intros (Ha0 & Hal & Har) (Hb0 & Hbl & Hbr). split_and!.
  - destruct a; [done | discriminate].
  - by apply lstrip_app_trimmed.
  - apply rstrip_app_trimmed; [by apply string_app_not_empty_r|].
    by apply (rstrip_app_trimmed " " b).
Qed.

Lemma strip_trimmed (s : string) : trimmed s → strip s = s.
Proof. intros (_ & Hl & Hr). unfold strip. by rewrite Hl. Qed.

(** What [_add_transformation] computes when there is no old value. *)
Lemma strip_first (t : string) : trimmed t → strip ("" +:+ " " +:+ t) = t.
Proof.
  intros (Hne & Hl & Hr). unfold strip.
  rewrite string_app_empty, string_app_cons, string_app_empty.
  simpl. by rewrite Hl.
Qed.

(** What [_add_transformation] computes on top of an old value. *)
Lemma strip_next (old t : string) :
  trimmed old → trimmed t → strip (old +:+ " " +:+ t) = old +:+ " " +:+ t.
Proof. intros Ho Ht. by apply strip_trimmed, trimmed_app. Qed.

Lemma join_cons_cons (sep a b : string) (rest : list string) :
  join sep ((a +:+ sep +:+ b) :: rest) = join sep (a :: b :: rest).
Proof.
  destruct rest as [|c rest]; [done|].
  change (((a +:+ sep +:+ b) +:+ sep +:+ join sep (c :: rest))
          = a +:+ sep +:+ b +:+ sep +:+ join sep (c :: rest)).
  by rewrite !string_app_assoc.
Qed.

(** A function-call token [name(body)] has no whitespace at its ends. *)
Lemma call_token_trimmed (x : ascii) (name body : string) :
  is_whitespace x = false →
  trimmed (String x name +:+ body +:+ ")").
Proof.
  intros Hx. split_and!.
  - discriminate.
  - rewrite string_app_cons. simpl. by rewrite Hx.
  - apply rstrip_app_trimmed; [by apply string_app_not_empty_r|].
    by apply rstrip_app_trimmed.
Qed.

Lemma token_trimmed (c : transform_call) : trimmed (token c).
Proof. destruct c; by apply call_token_trimmed. Qed.

(** ** ITransform: composing calls *)

Lemma run_add_transformation (new_transform : string) (self : element) :
  ITransform._add_transformation new_transform self
  = (Return tt,
     with_attribs self
       (<["transform" :=
            VStr (strip (py_str (default (VStr "") (attribs self !! "transform"))
                         +:+ " " +:+ new_transform))]>
          (attribs self))).
Proof. reflexivity. Qed.

Lemma call_is_add_transformation (c : transform_call) :
  call c = ITransform._add_transformation (token c).
Proof. by destruct c. Qed.

Lemma run_call (c : transform_call) (self : element) :
  call c self
  = (Return tt,
     with_attribs self
       (<["transform" :=
            VStr (strip (py_str (default (VStr "") (attribs self !! "transform"))
                         +:+ " " +:+ token c))]>
          (attribs self))).
Proof. rewrite call_is_add_transformation. apply run_add_transformation. Qed.

Lemma run_call_first (c : transform_call) (self : element) :
  attribs self !! "transform" = None →
  call c self
  = (Return tt, with_attribs self (<["transform" := VStr (token c)]> (attribs self))).
Proof.
  intros Habs. rewrite run_call, Habs.
  change (py_str (default (VStr "") None)) with "".
  by rewrite strip_first by apply token_trimmed.
Qed.

Lemma run_call_next (c : transform_call) (old : value) (self : element) :
  attribs self !! "transform" = Some old → trimmed (py_str old) →
  call c self
  = (Return tt,
     with_attribs self
       (<["transform" := VStr (py_str old +:+ " " +:+ token c)]> (attribs self))).
Proof.
  intros Hold Htr. rewrite run_call, Hold. simpl.
  by rewrite strip_next by (done || apply token_trimmed).
Qed.

Lemma run_call_all_next (cs : list transform_call) :
  ∀ (old : string) (self : element),
    attribs self !! "transform" = Some (VStr old) → trimmed old →
    call_all cs self
    = (Return tt,
       with_attribs self
         (<["transform" := VStr (join " " (old :: (token <$> cs)))]>
            (attribs self))).
Proof.
  induction cs as [|c rest IH]; intros old self Hold Htr.
  - simpl. rewrite insert_id by done. by rewrite with_attribs_same.
  - change (call_all (c :: rest)) with (call c;; call_all rest).
    rewrite run_bind, (run_call_next c (VStr old) self Hold Htr).
    rewrite (IH (old +:+ " " +:+ token c)).
    + rewrite with_attribs_twice, attribs_with_attribs, insert_insert_eq.
      by rewrite fmap_cons, join_cons_cons.
    + rewrite attribs_with_attribs. apply lookup_insert_eq.
    + apply trimmed_app; [done | apply token_trimmed].
Qed.

Lemma run_call_all_first (c : transform_call) (rest : list transform_call)
    (self : element) :
  attribs self !! "transform" = None →
  call_all (c :: rest) self
  = (Return tt,
     with_attribs self
       (<["transform" := VStr (join " " (token <$> c :: rest))]> (attribs self))).
Proof.
  intros Habs.
  change (call_all (c :: rest)) with (call c;; call_all rest).
  rewrite run_bind, (run_call_first c self Habs).
  rewrite (run_call_all_next rest (token c)).
  - rewrite with_attribs_twice, attribs_with_attribs, insert_insert_eq.
    by rewrite fmap_cons.
  - rewrite attribs_with_attribs. apply lookup_insert_eq.
  - apply token_trimmed.
Qed.

(** With the second entry [None], [strlist] gives the first entry alone,
    whatever the separator is. *)
Lemma strlist_with_second_absent (sep : string) (v : value) :
  is_none v = false → strlist_with sep [Leaf v; Leaf VNone] = py_str v.
Proof. by destruct v. Qed.

(** C1: every transform call returns and stores, under ['transform'], the
    old value, a space and the call's token, stripped of whitespace at the
    ends.  On an element without ['transform'] the value is the token
    alone; on top of a value without whitespace at its ends, such as one
    built by earlier calls, it is that value, one space and the token.  So
    a sequence of calls on an element without ['transform'] leaves the
    tokens in call order, joined by single spaces.  With the second
    argument of [translate] or [scale] absent the token holds the first
    argument alone, and [translate(10)] then [scale(2)] gives
    "translate(10) scale(2)". *)
Theorem transform_calls_append_tokens (self : element) :
  (∀ c,
      call c self
      = (Return tt,
         with_attribs self
           (<["transform" :=
                VStr (strip (py_str (default (VStr "") (attribs self !! "transform"))
                             +:+ " " +:+ token c))]>
              (attribs self))))
  ∧ (∀ c old,
        attribs self !! "transform" = Some old → trimmed (py_str old) →
        attribs (call c self).2 !! "transform"
        = Some (VStr (py_str old +:+ " " +:+ token c)))
  ∧ (∀ c,
        attribs self !! "transform" = None →
        attribs (call c self).2 !! "transform" = Some (VStr (token c)))
  ∧ (∀ c rest,
        attribs self !! "transform" = None →
        call_all (c :: rest) self
        = (Return tt,
           with_attribs self
             (<["transform" := VStr (join " " (token <$> c :: rest))]>
                (attribs self))))
  ∧ (∀ n : Z,
        token (Translate (VInt n) VNone) = "translate(" +:+ pretty n +:+ ")"
        ∧ token (Scale (VInt n) VNone) = "scale(" +:+ pretty n +:+ ")")
  ∧ (attribs self !! "transform" = None →
     attribs
       ((ITransform.translate (VInt 10) VNone;;
         ITransform.scale (VInt 2) VNone) self).2
       !! "transform" = Some (VStr "translate(10) scale(2)")).
Proof.
  split; [intros c; apply run_call|].
  split.
  { intros c old Hold Htr. rewrite (run_call_next c old self Hold Htr).
    apply lookup_insert_eq. }
  split.
  { intros c Habs. rewrite (run_call_first c self Habs).
    apply lookup_insert_eq. }
  split; [intros c rest; apply run_call_all_first|].
  split; [done|].
  intros Habs.
  pose proof (run_call_all_first (Translate (VInt 10) VNone)
                [Scale (VInt 2) VNone] self Habs) as Hrun.
  change (call_all [Translate (VInt 10) VNone; Scale (VInt 2) VNone])
    with (ITransform.translate (VInt 10) VNone;;
          ITransform.scale (VInt 2) VNone;; mret tt) in Hrun.
  assert (((ITransform.translate (VInt 10) VNone;;
            ITransform.scale (VInt 2) VNone) self).2
          = ((ITransform.translate (VInt 10) VNone;;
              ITransform.scale (VInt 2) VNone;; mret tt) self).2) as ->.
  { rewrite !run_bind.
    destruct (ITransform.translate (VInt 10) VNone self) as [[[]|e] s1]; [|done].
    rewrite run_bind.
    by destruct (ITransform.scale (VInt 2) VNone s1) as [[[]|e] s2]. }
  rewrite Hrun. cbn [snd]. rewrite attribs_with_attribs, lookup_insert_eq.
  vm_compute. reflexivity.
Qed.

Lemma transform_calls_append_tokens_witness :
  attribs (blank false) !! "transform" = None
  ∧ attribs
      ((ITransform.translate (VInt 10) VNone;;
        ITransform.scale (VInt 2) VNone) (blank false)).2
      !! "transform" = Some (VStr "translate(10) scale(2)")
  ∧ attribs
      (call (Rotate (VInt 45) (Seq [Leaf (VInt 5); Leaf (VInt 5)]))
         (with_attribs (blank false) (<["transform" := VStr "skewX(3)"]> ∅))).2
      !! "transform"
    = Some (VStr ("skewX(3)" +:+ " " +:+
                  token (Rotate (VInt 45) (Seq [Leaf (VInt 5); Leaf (VInt 5)])))).
Proof.
  split; [reflexivity|]. split.
  - apply (transform_calls_append_tokens (blank false)). reflexivity.
  - destruct (transform_calls_append_tokens
                (with_attribs (blank false) (<["transform" := VStr "skewX(3)"]> ∅)))
      as (_ & H & _).
    apply (H _ (VStr "skewX(3)")); [reflexivity|].
    split; [discriminate | split; reflexivity].
Defined.

(** * Further properties of the interfaces *)

(** ** IViewBox: [stretch] and [fit] *)

Lemma run_stretch (self : element) :
  IViewBox.stretch self
  = (Return tt,
     with_attribs self (<["preserveAspectRatio" := VStr "none"]> (attribs self))).
Proof. reflexivity. Qed.

Lemma run_viewbox (minx miny width height : value) (self : element) :
  IViewBox.viewbox minx miny width height self
  = (Return tt,
     with_attribs self
       (<["viewBox" :=
            VStr (strlist [Leaf minx; Leaf miny; Leaf width; Leaf height])]>
          (attribs self))).
Proof. reflexivity. Qed.

Lemma horiz_recognised (key : string) :
  is_Some (_horiz !! key) ↔ key ∈ ["left"; "center"; "right"].
Proof.
  rewrite horiz_table. split.
  - repeat case_decide; subst; intros [? ?]; [in_list..|done].
  - intros Hin. repeat case_decide; eauto. exfalso. in_list.
Qed.

Lemma vert_recognised (key : string) :
  is_Some (_vert !! key) ↔ key ∈ ["top"; "middle"; "bottom"].
Proof.
  rewrite vert_table. split.
  - repeat case_decide; subst; intros [? ?]; [in_list..|done].
  - intros Hin. repeat case_decide; eauto. exfalso. in_list.
Qed.

(** [fit] by cases: the scale test, then the [horiz] lookup, then the
    [vert] lookup, then the write. *)
Lemma run_fit (horiz vert scale : string) (self : element) :
  IViewBox.fit horiz vert scale self
  = if debug self && IViewBox.not_in_meet_slice scale
    then (Raise (ValueError ("Invalid scale parameter '" +:+ scale +:+ "'")), self)
    else match _horiz !! horiz with
         | None => (Raise (KeyError horiz), self)
         | Some h =>
             match _vert !! vert with
             | None => (Raise (KeyError vert), self)
             | Some v =>
                 (Return tt,
                  with_attribs self
                    (<["preserveAspectRatio" := VStr (h +:+ v +:+ " " +:+ scale)]>
                       (attribs self)))
             end
         end.
Proof.
  destruct (debug self && IViewBox.not_in_meet_slice scale) eqn:Hc.
  - apply andb_true_iff in Hc as [Hd Hs].
    apply not_in_meet_slice_true in Hs as [Hm Hsl].
    by apply fit_scale_rejected.
  - rewrite fit_scale_accepted by done. rewrite run_bind.
    destruct (_horiz !! horiz) as [h|] eqn:Hh.
    + rewrite (run_dict_getitem_Some _ _ _ _ Hh), run_bind.
      destruct (_vert !! vert) as [v|] eqn:Hv.
      * by rewrite (run_dict_getitem_Some _ _ _ _ Hv).
      * by rewrite (run_dict_getitem_None _ _ _ Hv).
    + by rewrite (run_dict_getitem_None _ _ _ Hh).
Qed.

(** X1: [fit] returns exactly when both keys are recognised and, with the
    strict flag on, the scale is 'meet' or 'slice'. *)
Theorem fit_returns_iff (horiz vert scale : string) (self : element) :
  (IViewBox.fit horiz vert scale self).1 = Return tt
  ↔ horiz ∈ ["left"; "center"; "right"]
    ∧ vert ∈ ["top"; "middle"; "bottom"]
    ∧ (debug self = true → scale ∈ ["meet"; "slice"]).
Proof.
  rewrite <-horiz_recognised, <-vert_recognised, run_fit.
  destruct (debug self) eqn:Hd; simpl.
  - destruct (IViewBox.not_in_meet_slice scale) eqn:Hs.
    + apply not_in_meet_slice_true in Hs as [Hm Hsl]. split; [done|].
      intros (_ & _ & Hin). specialize (Hin eq_refl). in_list.
    + apply not_in_meet_slice_false in Hs.
      destruct (_horiz !! horiz), (_vert !! vert); simpl;
        (split; [intros ?; try done; split_and!; eauto; intros _; in_list
                |intros (H1 & H2 & _); try done;
                 try (by destruct H1); try (by destruct H2)]).
  - destruct (_horiz !! horiz), (_vert !! vert); simpl;
      (split; [intros ?; try done; split_and!; eauto; done
              |intros (H1 & H2 & _); try done;
               try (by destruct H1); try (by destruct H2)]).
Qed.

Lemma fit_returns_iff_witness :
  (IViewBox.fit "right" "middle" "meet" (blank true)).1 = Return tt
  ∧ (IViewBox.fit "right" "middle" "zoom" (blank true)).1 ≠ Return tt.
Proof.
  split.
  - apply (fit_returns_iff "right" "middle" "meet" (blank true)).
    split; [in_list|]. split; [in_list|]. intros _. in_list.
  - intros Hret.
    apply (fit_returns_iff "right" "middle" "zoom" (blank true)) in Hret
      as (_ & _ & Hs).
    specialize (Hs eq_refl). in_list.
Defined.

(** A [fit] that raises leaves the element as it was. *)
Lemma fit_raise_unchanged
    (horiz vert scale : string) (self : element) (e : exception) :
  (IViewBox.fit horiz vert scale self).1 = Raise e →
  (IViewBox.fit horiz vert scale self).2 = self.
Proof.
  rewrite run_fit.
  destruct (debug self && IViewBox.not_in_meet_slice scale); [done|].
  destruct (_horiz !! horiz); [|done].
  destruct (_vert !! vert); [|done].
  discriminate.
Qed.

(** X2: whenever [fit] raises, for a scale or for a key, it has written
    nothing: the element after the call is the element before it. *)
Theorem fit_raise_writes_nothing
    (horiz vert scale : string) (self : element) (e : exception)
    (Hraise : (IViewBox.fit horiz vert scale self).1 = Raise e) :
  (IViewBox.fit horiz vert scale self).2 = self.
Proof. by apply (fit_raise_unchanged horiz vert scale self e). Qed.

Lemma fit_raise_writes_nothing_witness :
  (IViewBox.fit "center" "upper" "meet"
     (with_attribs (blank false) (<["preserveAspectRatio" := VStr "none"]> ∅))).2
  = with_attribs (blank false) (<["preserveAspectRatio" := VStr "none"]> ∅).
Proof.
  apply (fit_raise_writes_nothing "center" "upper" "meet" _ (KeyError "upper")).
  vm_compute. reflexivity.
Defined.

(** X3: for a scale of 'meet' or 'slice' the strict flag makes no
    difference to [fit]: the outcome and the attributes written are the
    same with the flag on and off. *)
Theorem fit_flag_irrelevant_for_valid_scale
    (horiz vert scale : string) (a : gmap string value) (r : option reference)
    (Hs : scale ∈ ["meet"; "slice"]) :
  (IViewBox.fit horiz vert scale {| attribs := a; debug := true; href := r |}).1
  = (IViewBox.fit horiz vert scale {| attribs := a; debug := false; href := r |}).1
  ∧ attribs
      (IViewBox.fit horiz vert scale {| attribs := a; debug := true; href := r |}).2
    = attribs
        (IViewBox.fit horiz vert scale {| attribs := a; debug := false; href := r |}).2.
Proof.
  rewrite !run_fit. simpl.
  assert (IViewBox.not_in_meet_slice scale = false) as ->.
  { apply not_in_meet_slice_false. in_list. }
  destruct (_horiz !! horiz); [|done].
  by destruct (_vert !! vert).
Qed.

Lemma fit_flag_irrelevant_for_valid_scale_witness :
  (IViewBox.fit "left" "top" "slice" (blank true)).1
  = (IViewBox.fit "left" "top" "slice" (blank false)).1.
Proof.
  apply (fit_flag_irrelevant_for_valid_scale "left" "top" "slice" ∅ None).
  in_list.
Defined.

(** A [fit] that returns has written ['preserveAspectRatio'] and nothing
    else. *)
Lemma fit_return_shape (horiz vert scale : string) (self : element) :
  (IViewBox.fit horiz vert scale self).1 = Return tt →
  ∃ s, IViewBox.fit horiz vert scale self
       = (Return tt,
          with_attribs self
            (<["preserveAspectRatio" := VStr s]> (attribs self))).
Proof.
  rewrite run_fit.
  destruct (debug self && IViewBox.not_in_meet_slice scale); [done|].
  destruct (_horiz !! horiz); [|done].
  destruct (_vert !! vert); [|done]. eauto.
Qed.

(** The outcome of [fit] does not depend on the attributes. *)
Lemma fit_outcome_with_attribs (horiz vert scale : string) (self : element)
    (a : gmap string value) :
  (IViewBox.fit horiz vert scale (with_attribs self a)).1
  = (IViewBox.fit horiz vert scale self).1.
Proof.
  rewrite !run_fit. simpl.
  destruct (debug self && IViewBox.not_in_meet_slice scale); [done|].
  destruct (_horiz !! horiz); [|done].
  by destruct (_vert !! vert).
Qed.

(** X4: [stretch] and [fit] write the same attribute and the later call
    wins.  After a [fit] that returns, [stretch] leaves the element
    [stretch] alone leaves; after [stretch], a [fit] that returns leaves
    the element [fit] alone leaves; a [fit] that raises after [stretch]
    leaves the value "none" in place. *)
Theorem stretch_fit_last_call_wins (horiz vert scale : string) (self : element) :
  ((IViewBox.fit horiz vert scale self).1 = Return tt →
   (IViewBox.fit horiz vert scale;; IViewBox.stretch) self
   = IViewBox.stretch self)
  ∧ ((IViewBox.fit horiz vert scale self).1 = Return tt →
     (IViewBox.stretch;; IViewBox.fit horiz vert scale) self
     = IViewBox.fit horiz vert scale self)
  ∧ ((IViewBox.fit horiz vert scale self).1 ≠ Return tt →
     attribs ((IViewBox.stretch;; IViewBox.fit horiz vert scale) self).2
       !! "preserveAspectRatio" = Some (VStr "none")).
Proof.
  split_and!.
  - intros Hret. destruct (fit_return_shape _ _ _ _ Hret) as [s Hs].
    rewrite run_bind, Hs, !run_stretch.
    by rewrite with_attribs_twice, attribs_with_attribs, insert_insert_eq.
  - intros Hret. rewrite run_bind, run_stretch.
    rewrite !run_fit in *. simpl.
    destruct (debug self && IViewBox.not_in_meet_slice scale); [done|].
    destruct (_horiz !! horiz); [|done].
    destruct (_vert !! vert); [|done].
    by rewrite with_attribs_twice, insert_insert_eq.
  - intros Hraise. rewrite run_bind, run_stretch.
    destruct (IViewBox.fit horiz vert scale
                (with_attribs self
                   (<["preserveAspectRatio" := VStr "none"]> (attribs self))))
      as [[[]|e] st] eqn:Hfit.
    + exfalso. apply Hraise. rewrite <-(fit_outcome_with_attribs _ _ _ self
        (<["preserveAspectRatio" := VStr "none"]> (attribs self))).
      by rewrite Hfit.
    + pose proof (fit_raise_unchanged horiz vert scale
                    (with_attribs self
                       (<["preserveAspectRatio" := VStr "none"]> (attribs self)))
                    e) as Hsame.
      rewrite Hfit in Hsame. cbn [fst snd] in *. rewrite Hsame by done.
      rewrite attribs_with_attribs. apply lookup_insert_eq.
Qed.

Lemma stretch_fit_last_call_wins_witness :
  (IViewBox.fit "left" "top" "slice";; IViewBox.stretch) (blank true)
  = IViewBox.stretch (blank true)
  ∧ (IViewBox.stretch;; IViewBox.fit "left" "top" "slice") (blank true)
    = IViewBox.fit "left" "top" "slice" (blank true)
  ∧ attribs ((IViewBox.stretch;; IViewBox.fit "left" "top" "fill") (blank true)).2
      !! "preserveAspectRatio" = Some (VStr "none").
Proof.
  split_and!.
  - apply (stretch_fit_last_call_wins "left" "top" "slice" (blank true)).
    vm_compute. reflexivity.
  - apply (stretch_fit_last_call_wins "left" "top" "slice" (blank true)).
    vm_compute. reflexivity.
  - apply (stretch_fit_last_call_wins "left" "top" "fill" (blank true)).
    vm_compute. discriminate.
Defined.

(** X5: [viewbox] and the aspect-ratio methods write different
    attributes, so their order does not matter: [viewbox] before or after
    [stretch], and before or after a [fit] that returns, leaves the same
    element.  When [fit] raises, a [viewbox] called before it has still
    been done. *)
Theorem viewbox_independent_of_aspect_ratio
    (minx miny width height : value) (horiz vert scale : string)
    (self : element) :
  (IViewBox.viewbox minx miny width height;; IViewBox.stretch) self
  = (IViewBox.stretch;; IViewBox.viewbox minx miny width height) self
  ∧ ((IViewBox.fit horiz vert scale self).1 = Return tt →
     (IViewBox.viewbox minx miny width height;; IViewBox.fit horiz vert scale) self
     = (IViewBox.fit horiz vert scale;; IViewBox.viewbox minx miny width height) self)
  ∧ (∀ e, (IViewBox.fit horiz vert scale self).1 = Raise e →
       (IViewBox.viewbox minx miny width height;; IViewBox.fit horiz vert scale) self
       = (Raise e, (IViewBox.viewbox minx miny width height self).2)).
Proof.
  split_and!.
  - rewrite !run_bind.
    repeat progress (rewrite ?run_viewbox, ?run_stretch; cbv beta iota).
    rewrite !with_attribs_twice, !attribs_with_attribs.
    by rewrite insert_insert_ne.
  - intros Hret. rewrite !run_bind, run_viewbox.
    rewrite !run_fit in *. simpl.
    destruct (debug self && IViewBox.not_in_meet_slice scale); [done|].
    destruct (_horiz !! horiz); [|done].
    destruct (_vert !! vert); [|done].
    rewrite run_viewbox, ?with_attribs_twice, ?attribs_with_attribs.
    by rewrite insert_insert_ne.
  - intros e Hraise. rewrite !run_bind, run_viewbox.
    rewrite !run_fit in *. cbn [fst snd debug with_attribs] in *.
    destruct (debug self && IViewBox.not_in_meet_slice scale);
      [cbn [fst] in Hraise; by simplify_eq|].
    destruct (_horiz !! horiz); [|cbn [fst] in Hraise; by simplify_eq].
    destruct (_vert !! vert); [|cbn [fst] in Hraise; by simplify_eq].
    discriminate.
Qed.

Lemma viewbox_independent_of_aspect_ratio_witness :
  (IViewBox.viewbox (VInt 0) (VInt 0) (VInt 8) (VInt 6);;
   IViewBox.fit "right" "middle" "meet") (blank true)
  = (IViewBox.fit "right" "middle" "meet";;
     IViewBox.viewbox (VInt 0) (VInt 0) (VInt 8) (VInt 6)) (blank true)
  ∧ (IViewBox.viewbox (VInt 0) (VInt 0) (VInt 8) (VInt 6);;
     IViewBox.fit "east" "middle" "meet") (blank true)
    = (Raise (KeyError "east"),
       (IViewBox.viewbox (VInt 0) (VInt 0) (VInt 8) (VInt 6) (blank true)).2).
Proof.
  split.
  - apply (viewbox_independent_of_aspect_ratio
             (VInt 0) (VInt 0) (VInt 8) (VInt 6) "right" "middle" "meet"
             (blank true)).
    vm_compute. reflexivity.
  - apply (viewbox_independent_of_aspect_ratio
             (VInt 0) (VInt 0) (VInt 8) (VInt 6) "east" "middle" "meet"
             (blank true)).
    vm_compute. reflexivity.
Defined.

(** ** ITransform: the old value, frames and [del_transform] *)

Lemma lstrip_app_blank (s r : string) :
  lstrip s = "" → lstrip (s +:+ r) = lstrip r.
Proof.
  induction s as [|x s IH]; [done|].
  rewrite string_app_cons. simpl.
  destruct (is_whitespace x); [done | discriminate].
Qed.

Lemma lstrip_app_not_blank (s r : string) :
  lstrip s ≠ "" → lstrip (s +:+ r) = lstrip s +:+ r.
Proof.
  induction s as [|x s IH]; [done|].
  rewrite string_app_cons. simpl.
  destruct (is_whitespace x); [done|]. by rewrite string_app_cons.
Qed.

Lemma lstrip_idem (s : string) : lstrip (lstrip s) = lstrip s.
Proof.
  induction s as [|x s IH]; [done|]. simpl.
  destruct (is_whitespace x) eqn:Hx; [done|]. simpl. by rewrite Hx.
Qed.

Lemma left_trimmed_app (a b : string) :
  a ≠ "" → lstrip a = a → trimmed b → trimmed (a +:+ " " +:+ b).
Proof.
  intros Ha0 Hal (Hb0 & Hbl & Hbr). split_and!.
  - destruct a; [done | discriminate].
  - by apply lstrip_app_trimmed.
  - apply rstrip_app_trimmed; [by apply string_app_not_empty_r|].
    by apply (rstrip_app_trimmed " " b).
Qed.

(** What [strip] makes of an old value, a space and a token. *)
Lemma strip_old_token (old t : string) :
  trimmed t →
  strip (old +:+ " " +:+ t)
  = if decide (lstrip old = "") then t else lstrip old +:+ " " +:+ t.
Proof.
  intros Ht. unfold strip. case_decide as Hold.
  - rewrite lstrip_app_blank by done.
    rewrite string_app_cons, string_app_empty. simpl.
    destruct Ht as (_ & -> & Hr). done.
  - rewrite lstrip_app_not_blank by done.
    apply (left_trimmed_app (lstrip old) t Hold (lstrip_idem old) Ht).
Qed.

Lemma trimmed_after_old (old t : string) :
  trimmed t →
  trimmed (if decide (lstrip old = "") then t else lstrip old +:+ " " +:+ t).
Proof.
  intros Ht. case_decide as Hold; [done|].
  by apply (left_trimmed_app (lstrip old) t Hold (lstrip_idem old)).
Qed.

Lemma run_call_any_old (c : transform_call) (self : element) :
  call c self
  = (Return tt,
     with_attribs self
       (<["transform" :=
            VStr (if decide (lstrip (py_str (default (VStr "")
                                               (attribs self !! "transform"))) = "")
                  then token c
                  else lstrip (py_str (default (VStr "")
                                         (attribs self !! "transform")))
                       +:+ " " +:+ token c)]>
          (attribs self))).
Proof.
  rewrite run_call. by rewrite strip_old_token by apply token_trimmed.
Qed.

(** X6: what a transform call does with the old value, whatever it is.
    An old value that is absent, empty or made of whitespace only is
    replaced by the token.  Otherwise the new value is the old one without
    its leading whitespace, one space and the token; whitespace at the end
    of the old value stays, in front of the separating space. *)
Theorem transform_call_on_any_old_value (c : transform_call) (self : element) :
  let old := py_str (default (VStr "") (attribs self !! "transform")) in
  (lstrip old = "" →
   attribs (call c self).2 !! "transform" = Some (VStr (token c)))
  ∧ (lstrip old ≠ "" →
     attribs (call c self).2 !! "transform"
     = Some (VStr (lstrip old +:+ " " +:+ token c))).
Proof.
  intros old. rewrite run_call_any_old. cbn [snd].
  rewrite attribs_with_attribs, lookup_insert_eq. fold old.
  split; intros Hold; by case_decide.
Qed.

Lemma transform_call_on_any_old_value_witness :
  attribs
    (call (SkewX (VInt 30))
       (with_attribs (blank false) (<["transform" := VStr "  "]> ∅))).2
    !! "transform" = Some (VStr "skewX(30)")
  ∧ attribs
      (call (SkewX (VInt 30))
         (with_attribs (blank false) (<["transform" := VStr " scale(2) "]> ∅))).2
      !! "transform" = Some (VStr "scale(2)  skewX(30)").
Proof.
  split.
  - apply (transform_call_on_any_old_value (SkewX (VInt 30))
             (with_attribs (blank false) (<["transform" := VStr "  "]> ∅))).
    vm_compute. reflexivity.
  - destruct (transform_call_on_any_old_value (SkewX (VInt 30))
                (with_attribs (blank false)
                   (<["transform" := VStr " scale(2) "]> ∅))) as [_ H].
    refine (H _). vm_compute. discriminate.
Defined.

(** X7: whatever ['transform'] held before, after one call it holds a
    string that is not empty and has no whitespace at either end, and each
    further call appends one space and its token to it. *)
Theorem transform_value_trimmed_after_call
    (c : transform_call) (rest : list transform_call) (self : element) :
  ∃ s, trimmed s
       ∧ attribs (call c self).2 !! "transform" = Some (VStr s)
       ∧ attribs (call_all (c :: rest) self).2 !! "transform"
         = Some (VStr (join " " (s :: (token <$> rest)))).
Proof.
  eexists. split; [|split].
  - apply (trimmed_after_old
             (py_str (default (VStr "") (attribs self !! "transform")))
             (token c) (token_trimmed c)).
  - rewrite run_call_any_old. cbn [snd].
    by rewrite attribs_with_attribs, lookup_insert_eq.
  - change (call_all (c :: rest)) with (call c;; call_all rest).
    rewrite run_bind, run_call_any_old.
    erewrite run_call_all_next.
    + cbn [snd]. rewrite attribs_with_attribs. apply lookup_insert_eq.
    + rewrite attribs_with_attribs. apply lookup_insert_eq.
    + apply trimmed_after_old, token_trimmed.
Qed.

(** A list of transform calls returns and touches ['transform'] only. *)
Lemma call_all_shape (cs : list transform_call) :
  ∀ self : element,
    ∃ a, call_all cs self = (Return tt, with_attribs self a)
         ∧ ∀ key, key ≠ "transform" → a !! key = attribs self !! key.
Proof.
  induction cs as [|c rest IH]; intros self.
  - exists (attribs self). split; [|done]. simpl. by rewrite with_attribs_same.
  - change (call_all (c :: rest)) with (call c;; call_all rest).
    rewrite run_bind, run_call.
    destruct (IH (with_attribs self
                    (<["transform" :=
                         VStr (strip (py_str (default (VStr "")
                                                (attribs self !! "transform"))
                                      +:+ " " +:+ token c))]>
                       (attribs self)))) as (a & -> & Ha).
    exists a. split; [by rewrite with_attribs_twice|].
    intros key Hk. rewrite (Ha key Hk), attribs_with_attribs.
    by rewrite lookup_insert_ne.
Qed.

(** X8: transform calls never raise and never touch another attribute:
    after any list of calls every key other than ['transform'] has the
    value it had, and the strict flag and the reference are as before. *)
Theorem transform_calls_frame (cs : list transform_call) (self : element) :
  (call_all cs self).1 = Return tt
  ∧ (∀ key, key ≠ "transform" →
       attribs (call_all cs self).2 !! key = attribs self !! key)
  ∧ debug (call_all cs self).2 = debug self
  ∧ href (call_all cs self).2 = href self.
Proof.
  destruct (call_all_shape cs self) as (a & -> & Ha). by split_and!.
Qed.

(** X9: [del_transform] undoes any list of transform calls: the calls
    followed by [del_transform] leave the element [del_transform] alone
    leaves. *)
Theorem del_transform_undoes_calls (cs : list transform_call) (self : element) :
  (call_all cs;; ITransform.del_transform) self = ITransform.del_transform self.
Proof.
  rewrite run_bind. destruct (call_all_shape cs self) as (a & -> & Ha).
  rewrite !run_del_transform, with_attribs_twice, attribs_with_attribs.
  do 2 f_equal. apply map_eq. intros key.
  destruct (decide (key = "transform")) as [->|Hk].
  - by rewrite !lookup_delete_eq.
  - rewrite !lookup_delete_ne by done. by apply Ha.
Qed.

(** X10: after [del_transform] the calls start afresh: the value left by
    [del_transform] and a non-empty list of calls is the list's tokens
    joined by single spaces, with no trace of the value held before, and
    every other attribute is as before. *)
Theorem del_transform_then_calls
    (c : transform_call) (rest : list transform_call) (self : element) :
  (ITransform.del_transform;; call_all (c :: rest)) self
  = (Return tt,
     with_attribs self
       (<["transform" := VStr (join " " (token <$> c :: rest))]> (attribs self))).
Proof.
  rewrite run_bind, run_del_transform.
  rewrite run_call_all_first by (rewrite attribs_with_attribs; apply lookup_delete_eq).
  by rewrite with_attribs_twice, attribs_with_attribs, insert_delete_eq.
Qed.

(** ** IPresentation: repeated calls, falsy arguments, [stroke] *)

Lemma set_if_truthy_falsy (key : string) (v : value) (a : gmap string value) :
  truthy v = false → set_if_truthy key v a = a.
Proof. unfold set_if_truthy. by intros ->. Qed.

(** Conditional writes at different keys can be swapped. *)
Lemma set_if_truthy_swap (k1 k2 : string) (v1 v2 : value) (a : gmap string value) :
  k1 ≠ k2 →
  set_if_truthy k1 v1 (set_if_truthy k2 v2 a)
  = set_if_truthy k2 v2 (set_if_truthy k1 v1 a).
Proof.
  intros Hne. unfold set_if_truthy.
  destruct (truthy v1), (truthy v2); try done. by apply insert_insert_ne.
Qed.

(** Two conditional writes at one key: the later value if it is truthy,
    else the earlier one. *)
Lemma set_if_truthy_twice (key : string) (v v' : value) (a : gmap string value) :
  set_if_truthy key v' (set_if_truthy key v a)
  = set_if_truthy key (if truthy v' then v' else v) a.
Proof.
  unfold set_if_truthy. destruct (truthy v') eqn:Hv'.
  - rewrite Hv'. destruct (truthy v); [apply insert_insert_eq | done].
  - done.
Qed.

Lemma run_fill_twice (color rule opacity color' rule' opacity' : value)
    (self : element) :
  (IPresentation.fill color rule opacity;;
   IPresentation.fill color' rule' opacity') self
  = IPresentation.fill
      (if truthy color' then color' else color)
      (if truthy rule' then rule' else rule)
      (if truthy opacity' then opacity' else opacity) self.
Proof.
  rewrite run_bind, !run_fill, with_attribs_twice, attribs_with_attribs.
  do 2 f_equal.
  rewrite <-!set_if_truthy_twice.
  rewrite (set_if_truthy_swap "fill" "fill-opacity") by done.
  rewrite (set_if_truthy_swap "fill" "fill-rule") by done.
  by rewrite (set_if_truthy_swap "fill-rule" "fill-opacity") by done.
Qed.

Lemma run_viewport_fill_twice (color opacity color' opacity' : value)
    (self : element) :
  (IPresentation.viewport_fill color opacity;;
   IPresentation.viewport_fill color' opacity') self
  = IPresentation.viewport_fill
      (if truthy color' then color' else color)
      (if truthy opacity' then opacity' else opacity) self.
Proof.
  rewrite run_bind, !run_viewport_fill, with_attribs_twice, attribs_with_attribs.
  do 2 f_equal.
  rewrite <-!set_if_truthy_twice.
  by rewrite (set_if_truthy_swap "viewport-fill" "viewport-fill-opacity") by done.
Qed.

Lemma run_dasharray_twice (definition offset definition' offset' : value)
    (self : element) :
  (IPresentation.dasharray definition offset;;
   IPresentation.dasharray definition' offset') self
  = IPresentation.dasharray
      (if truthy definition' then definition' else definition)
      (if truthy offset' then offset' else offset) self.
Proof.
  rewrite run_bind, !run_dasharray, with_attribs_twice, attribs_with_attribs.
  do 2 f_equal.
  rewrite <-!set_if_truthy_twice.
  by rewrite (set_if_truthy_swap "stroke-array" "stroke-dashoffset") by done.
Qed.

Lemma if_truthy_same (v : value) : (if truthy v then v else v) = v.
Proof. by destruct (truthy v). Qed.

(** X11: a later call of a setter overrides exactly the attributes it is
    given.  Two calls of [fill] leave the element one call leaves whose
    arguments are, parameter by parameter, the second call's when that is
    truthy and the first call's otherwise; the same holds for
    [viewport_fill] and [dasharray]. *)
Theorem setter_calls_merge (self : element) :
  (∀ color rule opacity color' rule' opacity',
      (IPresentation.fill color rule opacity;;
       IPresentation.fill color' rule' opacity') self
      = IPresentation.fill
          (if truthy color' then color' else color)
          (if truthy rule' then rule' else rule)
          (if truthy opacity' then opacity' else opacity) self)
  ∧ (∀ color opacity color' opacity',
        (IPresentation.viewport_fill color opacity;;
         IPresentation.viewport_fill color' opacity') self
        = IPresentation.viewport_fill
            (if truthy color' then color' else color)
            (if truthy opacity' then opacity' else opacity) self)
  ∧ (∀ definition offset definition' offset',
        (IPresentation.dasharray definition offset;;
         IPresentation.dasharray definition' offset') self
        = IPresentation.dasharray
            (if truthy definition' then definition' else definition)
            (if truthy offset' then offset' else offset) self).
Proof.
  split_and!; intros.
  - apply run_fill_twice.
  - apply run_viewport_fill_twice.
  - apply run_dasharray_twice.
Qed.

(** X12: [fill], [viewport_fill] and [dasharray] are idempotent: a call
    repeated with the same arguments leaves the element the first call
    left. *)
Theorem setters_idempotent (self : element) :
  (∀ color rule opacity,
      (IPresentation.fill color rule opacity;;
       IPresentation.fill color rule opacity) self
      = IPresentation.fill color rule opacity self)
  ∧ (∀ color opacity,
        (IPresentation.viewport_fill color opacity;;
         IPresentation.viewport_fill color opacity) self
        = IPresentation.viewport_fill color opacity self)
  ∧ (∀ definition offset,
        (IPresentation.dasharray definition offset;;
         IPresentation.dasharray definition offset) self
        = IPresentation.dasharray definition offset self).
Proof.
  split_and!; intros.
  - by rewrite run_fill_twice, !if_truthy_same.
  - by rewrite run_viewport_fill_twice, !if_truthy_same.
  - by rewrite run_dasharray_twice, !if_truthy_same.
Qed.

(** X13: a falsy argument is an absent one.  With every argument [None],
    zero or the empty string a setter returns and leaves the element as it
    was; so an opacity, width or offset of 0 cannot be stored: such a
    call keeps the old value of the attribute. *)
Theorem falsy_arguments_write_nothing (self : element) :
  (∀ color rule opacity,
      truthy color = false → truthy rule = false → truthy opacity = false →
      IPresentation.fill color rule opacity self = (Return tt, self))
  ∧ (∀ color opacity,
        truthy color = false → truthy opacity = false →
        IPresentation.viewport_fill color opacity self = (Return tt, self))
  ∧ (∀ definition offset,
        truthy definition = false → truthy offset = false →
        IPresentation.dasharray definition offset self = (Return tt, self))
  ∧ (∀ color rule,
        attribs (IPresentation.fill color rule (VInt 0) self).2 !! "fill-opacity"
        = attribs self !! "fill-opacity")
  ∧ (∀ color,
        attribs (IPresentation.viewport_fill color (VInt 0) self).2
          !! "viewport-fill-opacity"
        = attribs self !! "viewport-fill-opacity")
  ∧ (∀ definition,
        attribs (IPresentation.dasharray definition (VInt 0) self).2
          !! "stroke-dashoffset"
        = attribs self !! "stroke-dashoffset").
Proof.
  split_and!.
  - intros c r o Hc Hr Ho.
    rewrite run_fill, !set_if_truthy_falsy by done. by rewrite with_attribs_same.
  - intros c o Hc Ho.
    rewrite run_viewport_fill, !set_if_truthy_falsy by done.
    by rewrite with_attribs_same.
  - intros d o Hd Ho.
    rewrite run_dasharray, !set_if_truthy_falsy by done.
    by rewrite with_attribs_same.
  - intros c r. rewrite run_fill. cbn [snd]. rewrite attribs_with_attribs.
    rewrite (set_if_truthy_falsy "fill-opacity") by done.
    by rewrite !lookup_set_if_truthy_other.
  - intros c. rewrite run_viewport_fill. cbn [snd]. rewrite attribs_with_attribs.
    rewrite (set_if_truthy_falsy "viewport-fill-opacity") by done.
    by rewrite !lookup_set_if_truthy_other.
  - intros d. rewrite run_dasharray. cbn [snd]. rewrite attribs_with_attribs.
    rewrite (set_if_truthy_falsy "stroke-dashoffset") by done.
    by rewrite !lookup_set_if_truthy_other.
Qed.

Lemma falsy_arguments_write_nothing_witness :
  IPresentation.fill (VStr "") VNone (VInt 0)
    (with_attribs (blank false) (<["fill-opacity" := VInt 1]> ∅))
  = (Return tt, with_attribs (blank false) (<["fill-opacity" := VInt 1]> ∅)).
Proof.
  apply (falsy_arguments_write_nothing
           (with_attribs (blank false) (<["fill-opacity" := VInt 1]> ∅)));
    reflexivity.
Defined.

(** X14: [stroke] is not undone by its error.  It raises [NameError] at
    the fifth parameter, and by then each truthy one of the first four,
    color, width, opacity and linecap, has been stored under its
    attribute and stays stored. *)
Theorem stroke_keeps_writes_before_raise
    (color width opacity linecap linejoin miterlimit : value) (self : element) :
  let after :=
    (IPresentation.stroke color width opacity linecap linejoin miterlimit self).2 in
  (IPresentation.stroke color width opacity linecap linejoin miterlimit self).1
  = Raise (NameError "join")
  ∧ (truthy color = true → attribs after !! "stroke" = Some color)
  ∧ (truthy width = true → attribs after !! "stroke-width" = Some width)
  ∧ (truthy opacity = true → attribs after !! "stroke-opacity" = Some opacity)
  ∧ (truthy linecap = true → attribs after !! "stroke-linecap" = Some linecap).
Proof.
  intros after. subst after. rewrite run_stroke. cbn [fst snd].
  rewrite attribs_with_attribs.
  split_and!; [done|..]; intros Ht.
  - rewrite !lookup_set_if_truthy_other by done.
    by apply lookup_set_if_truthy_hit.
  - rewrite !lookup_set_if_truthy_other by done.
    by apply lookup_set_if_truthy_hit.
  - rewrite !lookup_set_if_truthy_other by done.
    by apply lookup_set_if_truthy_hit.
  - by apply lookup_set_if_truthy_hit.
Qed.

Lemma stroke_keeps_writes_before_raise_witness :
  attribs
    (IPresentation.stroke (VStr "red") (VInt 2) VNone VNone VNone VNone
       (blank false)).2 !! "stroke-width" = Some (VInt 2).
Proof.
  apply (stroke_keeps_writes_before_raise
           (VStr "red") (VInt 2) VNone VNone VNone VNone (blank false)).
  reflexivity.
Defined.

(** ** IXLink: [update_id], the allocator and repeated calls *)

Section XLinkMore.

Variable idname : nat → string.

(** [set_href] is the store into [self.href] followed by [update_id]. *)
Lemma set_href_unfold (self : loc) (r : reference) (w : world) :
  IXLink.set_href idname self r w
  = IXLink.update_id idname self
      {| heap :=
           <[self := {| attribs := attribs (heap w self);
                        debug := debug (heap w self);
                        href := Some r |}]> (heap w);
         autoid := autoid w |}.
Proof. reflexivity. Qed.

(** [update_id] with a stored element reference. *)
Lemma run_update_id_elem (self target : loc) (w : world) :
  href (heap w self) = Some (RefElem target) →
  let idv := default (VStr (idname (autoid w))) (attribs (heap w target) !! "id") in
  let w' := (IXLink.update_id idname self w).2 in
  (IXLink.update_id idname self w).1 = Return tt
  ∧ autoid w' = S (autoid w)
  ∧ attribs (heap w' target) !! "id" = Some idv
  ∧ attribs (heap w' self) !! "xlink:href" = Some (VStr ("#" +:+ py_str idv))
  ∧ (∀ l, l ≠ target → attribs (heap w' l) !! "id" = attribs (heap w l) !! "id")
  ∧ (∀ l, l ≠ self →
       attribs (heap w' l) !! "xlink:href" = attribs (heap w l) !! "xlink:href")
  ∧ (∀ l key, key ≠ "id" → key ≠ "xlink:href" →
       attribs (heap w' l) !! key = attribs (heap w l) !! key)
  ∧ (∀ l, debug (heap w' l) = debug (heap w l) ∧ href (heap w' l) = href (heap w l)).
Proof.
  intros Href idv w'. subst w'.
  unfold IXLink.update_id, IXLink.nextid, at_elem.
  unfold mbind, M_bind, bind, mret, M_ret, ret, get_href_field, attribs_set.
  rewrite Href. heap_simpl.
  rewrite run_attribs_setdefault. heap_simpl.
  assert (Hattr : attribs (<[self := heap w self]> (heap w) target)
                  = attribs (heap w target)).
  { destruct (decide (self = target)) as [->|Hne]; by heap_simpl. }
  rewrite Hattr. fold idv.
  split; [done|]. split; [done|].
  destruct (decide (self = target)) as [->|Hne]; heap_simpl.
  - split; [rewrite lookup_insert_ne by done; apply lookup_insert_eq|].
    split; [apply lookup_insert_eq|].
    split.
    { intros l Hl. heap_simpl. done. }
    split.
    { intros l Hl. heap_simpl. done. }
    split.
    { intros l key H1 H2. destruct (decide (l = target)) as [->|Hl]; heap_simpl.
      - by rewrite !lookup_insert_ne.
      - done. }
    intros l. destruct (decide (l = target)) as [->|Hl]; heap_simpl; done.
  - split; [apply lookup_insert_eq|].
    split; [apply lookup_insert_eq|].
    split.
    { intros l Hl. destruct (decide (l = self)) as [->|Hl']; heap_simpl.
      - by rewrite lookup_insert_ne.
      - done. }
    split.
    { intros l Hl. destruct (decide (l = target)) as [->|Hl']; heap_simpl.
      - by rewrite lookup_insert_ne.
      - done. }
    split.
    { intros l key H1 H2.
      destruct (decide (l = self)) as [->|Hl]; heap_simpl;
        [by rewrite lookup_insert_ne|].
      destruct (decide (l = target)) as [->|Hl']; heap_simpl;
        [by rewrite lookup_insert_ne|done]. }
    intros l.
    destruct (decide (l = self)) as [->|Hl]; heap_simpl; [done|].
    destruct (decide (l = target)) as [->|Hl']; heap_simpl; done.
Qed.

(** [update_id] with a stored name. *)
Lemma run_update_id_name (self : loc) (name : string) (w : world) :
  href (heap w self) = Some (RefName name) →
  let w' := (IXLink.update_id idname self w).2 in
  (IXLink.update_id idname self w).1 = Return tt
  ∧ autoid w' = autoid w
  ∧ attribs (heap w' self) !! "xlink:href" = Some (VStr ("#" +:+ name))
  ∧ (∀ l, l ≠ self →
       attribs (heap w' l) !! "xlink:href" = attribs (heap w l) !! "xlink:href")
  ∧ (∀ l key, key ≠ "xlink:href" →
       attribs (heap w' l) !! key = attribs (heap w l) !! key)
  ∧ (∀ l, debug (heap w' l) = debug (heap w l) ∧ href (heap w' l) = href (heap w l)).
Proof.
  intros Href w'. subst w'.
  unfold IXLink.update_id, at_elem.
  unfold mbind, M_bind, bind, mret, M_ret, ret, get_href_field, attribs_set.
  rewrite Href. heap_simpl.
  split; [done|]. split; [done|].
  split; [apply lookup_insert_eq|].
  split.
  { intros l Hl. by heap_simpl. }
  split.
  { intros l key Hk. destruct (decide (l = self)) as [->|Hl]; heap_simpl.
    - by rewrite lookup_insert_ne.
    - done. }
  intros l. destruct (decide (l = self)) as [->|Hl]; heap_simpl; done.
Qed.

(** Everything [set_href] does to the store, for either kind of
    reference. *)
Lemma set_href_facts (self : loc) (r : reference) (w : world) :
  let w' := (IXLink.set_href idname self r w).2 in
  (IXLink.set_href idname self r w).1 = Return tt
  ∧ autoid w' = match r with
                | RefName _ => autoid w
                | RefElem _ => S (autoid w)
                end
  ∧ attribs (heap w' self) !! "xlink:href"
    = Some (VStr ("#" +:+
                  match r with
                  | RefName name => name
                  | RefElem target =>
                      py_str (default (VStr (idname (autoid w)))
                                (attribs (heap w target) !! "id"))
                  end))
  ∧ (∀ target, r = RefElem target →
       attribs (heap w' target) !! "id"
       = Some (default (VStr (idname (autoid w)))
                 (attribs (heap w target) !! "id")))
  ∧ (∀ l, r ≠ RefElem l →
       attribs (heap w' l) !! "id" = attribs (heap w l) !! "id")
  ∧ (∀ l, l ≠ self →
       attribs (heap w' l) !! "xlink:href" = attribs (heap w l) !! "xlink:href")
  ∧ (∀ l key, key ≠ "id" → key ≠ "xlink:href" →
       attribs (heap w' l) !! key = attribs (heap w l) !! key)
  ∧ (∀ l, debug (heap w' l) = debug (heap w l))
  ∧ href (heap w' self) = Some r
  ∧ (∀ l, l ≠ self → href (heap w' l) = href (heap w l)).
Proof.
  intros w'. subst w'. rewrite set_href_unfold.
  set (w0 := {| heap := <[self := {| attribs := attribs (heap w self);
                                      debug := debug (heap w self);
                                      href := Some r |}]> (heap w);
                autoid := autoid w |}).
  assert (Hhref : href (heap w0 self) = Some r) by (subst w0; by heap_simpl).
  assert (Hattr : ∀ l, attribs (heap w0 l) = attribs (heap w l)).
  { intros l. subst w0. destruct (decide (l = self)) as [->|Hl]; by heap_simpl. }
  assert (Hdebug : ∀ l, debug (heap w0 l) = debug (heap w l)).
  { intros l. subst w0. destruct (decide (l = self)) as [->|Hl]; by heap_simpl. }
  assert (Hother : ∀ l, l ≠ self → href (heap w0 l) = href (heap w l)).
  { intros l Hl. subst w0. by heap_simpl. }
  assert (Hauto : autoid w0 = autoid w) by done.
  destruct r as [name|target].
  - destruct (run_update_id_name self name w0 Hhref)
      as (Hr & Ha & Hx & Hxo & Hk & Hdh).
    split; [done|]. split; [by rewrite Ha|]. split; [done|].
    split; [intros t [=]|].
    split; [intros l _; by rewrite Hk, Hattr|].
    split; [intros l Hl; by rewrite Hxo, Hattr|].
    split; [intros l key _ H2; by rewrite Hk, Hattr|].
    split; [intros l; destruct (Hdh l) as [-> _]; apply Hdebug|].
    split; [destruct (Hdh self) as [_ ->]; done|].
    intros l Hl. destruct (Hdh l) as [_ ->]. by apply Hother.
  - destruct (run_update_id_elem self target w0 Hhref)
      as (Hr & Ha & Hi & Hx & Hio & Hxo & Hk & Hdh).
    rewrite Hattr, Hauto in Hi, Hx.
    split; [done|]. split; [by rewrite Ha|]. split; [done|].
    split; [intros t [= <-]; done|].
    split.
    { intros l Hl. rewrite Hio, Hattr; [done|]. intros ->. by apply Hl. }
    split; [intros l Hl; by rewrite Hxo, Hattr|].
    split; [intros l key H1 H2; by rewrite Hk, Hattr|].
    split; [intros l; destruct (Hdh l) as [-> _]; apply Hdebug|].
    split; [destruct (Hdh self) as [_ ->]; done|].
    intros l Hl. destruct (Hdh l) as [_ ->]. by apply Hother.
Qed.

(** [set_href] returns, so what follows it runs on the store it leaves. *)
Lemma run_set_href_then {B} (self : loc) (r : reference)
    (k : unit → M world B) (w : world) :
  (IXLink.set_href idname self r ≫= k) w
  = k tt (IXLink.set_href idname self r w).2.
Proof.
  rewrite run_bind. destruct (set_href_facts self r w) as (Hr & _).
  destruct (IXLink.set_href idname self r w) as [o w1]. simpl in *.
  rewrite Hr. done.
Qed.

(** X15: [update_id] recomputes ['xlink:href'] from the stored reference.
    With a stored name it writes "#" and the name; with a stored element
    whose ['id'] is [ident] it writes "#" and [ident] and leaves that
    ['id'] alone.  So after the target's ['id'] has been changed,
    [update_id] brings the link up to date. *)
Theorem update_id_follows_stored_reference (self : loc) (w : world) :
  (∀ name,
      href (heap w self) = Some (RefName name) →
      (IXLink.update_id idname self w).1 = Return tt
      ∧ attribs (heap (IXLink.update_id idname self w).2 self) !! "xlink:href"
        = Some (VStr ("#" +:+ name)))
  ∧ (∀ target ident,
        href (heap w self) = Some (RefElem target) →
        attribs (heap w target) !! "id" = Some ident →
        (IXLink.update_id idname self w).1 = Return tt
        ∧ attribs (heap (IXLink.update_id idname self w).2 self) !! "xlink:href"
          = Some (VStr ("#" +:+ py_str ident))
        ∧ attribs (heap (IXLink.update_id idname self w).2 target) !! "id"
          = Some ident).
Proof.
  split.
  - intros name Href.
    destruct (run_update_id_name self name w Href) as (Hr & _ & Hx & _). done.
  - intros target ident Href Hid.
    destruct (run_update_id_elem self target w Href) as (Hr & _ & Hi & Hx & _).
    rewrite Hid in Hi, Hx. done.
Qed.

(** X16: a call of [set_href] with an element takes one identifier from
    the allocator, also when the target has an ['id'] and the identifier
    is not used; a call with a string takes none. *)
Theorem set_href_allocator_use (self : loc) (w : world) :
  (∀ name, autoid (IXLink.set_href idname self (RefName name) w).2 = autoid w)
  ∧ (∀ target,
        autoid (IXLink.set_href idname self (RefElem target) w).2 = S (autoid w))
  ∧ (∀ target ident,
        attribs (heap w target) !! "id" = Some ident →
        autoid (IXLink.set_href idname self (RefElem target) w).2 = S (autoid w)
        ∧ attribs (heap (IXLink.set_href idname self (RefElem target) w).2 target)
            !! "id" = Some ident).
Proof.
  split; [|split].
  - intros name. by destruct (set_href_facts self (RefName name) w) as (_ & -> & _).
  - intros target.
    by destruct (set_href_facts self (RefElem target) w) as (_ & -> & _).
  - intros target ident Hid.
    destruct (set_href_facts self (RefElem target) w) as (_ & -> & _ & Hi & _).
    split; [done|]. rewrite (Hi target eq_refl), Hid. done.
Qed.

(** X17: what [set_href] leaves alone.  It writes ['xlink:href'] of the
    host and, with an element, ['id'] of the target; every other attribute
    of every element keeps its value, ['xlink:href'] of every other
    element and ['id'] of every element that is not the target keep
    theirs, no strict flag changes, and the only reference stored is the
    host's. *)
Theorem set_href_frame (self : loc) (r : reference) (w : world) :
  let w' := (IXLink.set_href idname self r w).2 in
  (∀ l key, key ≠ "id" → key ≠ "xlink:href" →
     attribs (heap w' l) !! key = attribs (heap w l) !! key)
  ∧ (∀ l, l ≠ self →
       attribs (heap w' l) !! "xlink:href" = attribs (heap w l) !! "xlink:href")
  ∧ (∀ l, r ≠ RefElem l →
       attribs (heap w' l) !! "id" = attribs (heap w l) !! "id")
  ∧ (∀ l, debug (heap w' l) = debug (heap w l))
  ∧ href (heap w' self) = Some r
  ∧ (∀ l, l ≠ self → href (heap w' l) = href (heap w l)).
Proof.
  intros w'. subst w'.
  destruct (set_href_facts self r w)
    as (_ & _ & _ & _ & Hid & Hx & Hk & Hd & Hh & Hho).
  done.
Qed.

(** X18: the last reference wins and nothing is cleaned up.  After
    [set_href] with any reference and then [set_href] with a string, the
    host's ['xlink:href'] is "#" and the string and the stored reference
    is the string; an ['id'] the first call gave to its target is still
    there. *)
Theorem set_href_last_reference_wins
    (self : loc) (r : reference) (name : string) (w : world) :
  let w2 :=
    ((IXLink.set_href idname self r;;
      IXLink.set_href idname self (RefName name)) w).2 in
  attribs (heap w2 self) !! "xlink:href" = Some (VStr ("#" +:+ name))
  ∧ href (heap w2 self) = Some (RefName name)
  ∧ (∀ target,
        r = RefElem target → attribs (heap w target) !! "id" = None →
        attribs (heap w2 target) !! "id" = Some (VStr (idname (autoid w)))).
Proof.
  intros w2. subst w2. rewrite run_set_href_then.
  destruct (set_href_facts self r w) as (_ & _ & _ & Hi1 & _).
  destruct (set_href_facts self (RefName name)
              (IXLink.set_href idname self r w).2)
    as (_ & _ & Hx & _ & Hid & _ & _ & _ & Hh & _).
  split; [done|]. split; [done|].
  intros target -> Hnone.
  rewrite Hid by done. rewrite (Hi1 target eq_refl), Hnone. done.
Qed.

(** X19: a second [set_href] with the same element changes nothing but
    the allocator: the target's ['id'] and the host's ['xlink:href'] are
    what the first call left, whether or not the target had an ['id'] to
    begin with, and two identifiers have been taken. *)
Theorem set_href_same_element_twice (self target : loc) (w : world) :
  let w1 := (IXLink.set_href idname self (RefElem target) w).2 in
  let w2 :=
    ((IXLink.set_href idname self (RefElem target);;
      IXLink.set_href idname self (RefElem target)) w).2 in
  attribs (heap w2 target) !! "id" = attribs (heap w1 target) !! "id"
  ∧ attribs (heap w2 self) !! "xlink:href" = attribs (heap w1 self) !! "xlink:href"
  ∧ autoid w2 = S (S (autoid w)).
Proof.
  intros w1 w2. subst w1 w2. rewrite run_set_href_then.
  destruct (set_href_facts self (RefElem target) w)
    as (_ & Ha1 & Hx1 & Hi1 & _).
  destruct (set_href_facts self (RefElem target)
              (IXLink.set_href idname self (RefElem target) w).2)
    as (_ & Ha2 & Hx2 & Hi2 & _).
  specialize (Hi1 target eq_refl). specialize (Hi2 target eq_refl).
  rewrite Hi1 in Hi2, Hx2. simpl in Hi2, Hx2.
  split; [by rewrite Hi2, Hi1|].
  split; [by rewrite Hx2, Hx1|].
  by rewrite Ha2, Ha1.
Qed.

(** X20: two hosts that refer to two different elements without ['id']
    give them the allocator's next two identifiers, in call order, and
    each host links to its own target. *)
Theorem set_href_two_targets
    (host1 host2 target1 target2 : loc) (w : world)
    (Hdiff : target1 ≠ target2)
    (Hhosts : host1 ≠ host2)
    (Hid1 : attribs (heap w target1) !! "id" = None)
    (Hid2 : attribs (heap w target2) !! "id" = None) :
  let w2 :=
    ((IXLink.set_href idname host1 (RefElem target1);;
      IXLink.set_href idname host2 (RefElem target2)) w).2 in
  attribs (heap w2 target1) !! "id" = Some (VStr (idname (autoid w)))
  ∧ attribs (heap w2 target2) !! "id" = Some (VStr (idname (S (autoid w))))
  ∧ attribs (heap w2 host1) !! "xlink:href"
    = Some (VStr ("#" +:+ idname (autoid w)))
  ∧ attribs (heap w2 host2) !! "xlink:href"
    = Some (VStr ("#" +:+ idname (S (autoid w)))).
Proof.
  intros w2. subst w2. rewrite run_set_href_then.
  destruct (set_href_facts host1 (RefElem target1) w)
    as (_ & Ha1 & Hx1 & Hi1 & Hio1 & _).
  destruct (set_href_facts host2 (RefElem target2)
              (IXLink.set_href idname host1 (RefElem target1) w).2)
    as (_ & _ & Hx2 & Hi2 & Hio2 & Hxo2 & _).
  specialize (Hi1 target1 eq_refl). specialize (Hi2 target2 eq_refl).
  rewrite Hid1 in Hi1, Hx1. simpl in Hi1, Hx1.
  rewrite (Hio1 target2), Hid2, Ha1 in Hi2, Hx2 by congruence.
  simpl in Hi2, Hx2.
  split; [rewrite Hio2 by congruence; done|].
  split; [done|].
  split; [rewrite Hxo2 by done; done|].
  done.
Qed.

End XLinkMore.

Lemma update_id_follows_stored_reference_witness :
  href (heap linked_world 0) = Some (RefElem 1)
  ∧ attribs (heap linked_world 1) !! "id" = Some (VStr "logo")
  ∧ attribs (heap (IXLink.update_id id_n 0 linked_world).2 0) !! "xlink:href"
    = Some (VStr "#logo").
Proof.
  split; [reflexivity|]. split; [reflexivity|].
  destruct (update_id_follows_stored_reference id_n 0 linked_world) as [_ H].
  destruct (H 1 (VStr "logo")) as (_ & Hx & _); [reflexivity | reflexivity |].
  exact Hx.
Defined.

Lemma set_href_allocator_use_witness :
  attribs (heap linked_world 1) !! "id" = Some (VStr "logo")
  ∧ autoid (IXLink.set_href id_n 0 (RefElem 1) linked_world).2 = 1.
Proof.
  split; [reflexivity|].
  destruct (set_href_allocator_use id_n 0 linked_world) as (_ & _ & H).
  destruct (H 1 (VStr "logo")) as [Ha _]; [reflexivity|].
  exact Ha.
Defined.

Lemma set_href_last_reference_wins_witness :
  attribs (heap blank_world 1) !! "id" = None
  ∧ attribs
      (heap ((IXLink.set_href id_n 0 (RefElem 1);;
              IXLink.set_href id_n 0 (RefName "foo")) blank_world).2 1)
      !! "id" = Some (VStr "id0").
Proof.
  split; [reflexivity|].
  destruct (set_href_last_reference_wins id_n 0 (RefElem 1) "foo" blank_world)
    as (_ & _ & H).
  exact (H 1 eq_refl eq_refl).
Defined.

Lemma set_href_two_targets_witness :
  attribs
    (heap ((IXLink.set_href id_n 0 (RefElem 2);;
            IXLink.set_href id_n 1 (RefElem 3)) blank_world).2 3)
    !! "id" = Some (VStr "id1").
Proof.
  destruct (set_href_two_targets id_n 0 1 2 3 blank_world)
    as (_ & H & _); [lia | lia | reflexivity | reflexivity |].
  exact H.
Defined.
